(** * Predictive maintenance demo: synthetic data generator and prediction service

    A shallow embedding of [generate_data.py] (the degradation simulator and
    the failure-event pass) and of [api.py] (the prediction endpoint).

    Numbers.  The Python code computes with IEEE binary64 floats.  They are
    idealised here as exact rationals ([Q]): every float the scripts can
    produce is a rational, comparisons are the same, and the arithmetic is
    taken without rounding.  Infinities and NaN are outside the model; the
    overflow that a request can provoke, [float] on an integer beyond the
    float range, is modelled with its [OverflowError], and [float] on an
    integer rounds to the nearest float as the builtin does.  Where the
    exact decimal constants or the rounding of a step matter (the sum of
    the stress increments, one iteration of the wear loop) the code is
    re-stated on binary64 in [Module Binary64].

    Randomness.  Every call of [np.random.uniform] / [np.random.normal] is an
    input of the model (record [Draws]); the ranges and array sizes that
    NumPy guarantees are collected in [wf_draws]. *)

From Stdlib Require Import QArith Qminmax Qround Lqa ZArith Lia List Ascii String PrimFloat.
From stdpp Require Import gmap strings list fin_maps sorting.

(** ** Numeric primitives of Python and NumPy on the idealised floats *)

Module Num.

#[export] Instance Q_inhabited : Inhabited Q := populate 0%Q.

(** [x < y] and [x > y] on floats. *)
Definition ltb (x y : Q) : bool := negb (Qle_bool y x).
Definition gtb (x y : Q) : bool := ltb y x.

(** The builtin [max(a, b)]: the first argument unless the second is
    strictly larger. *)
Definition py_max (a b : Q) : Q := if gtb b a then b else a.

(** [np.maximum], [np.minimum] and [np.clip(a, lo, hi)], one element. *)
Definition np_maximum (a b : Q) : Q := if ltb a b then b else a.
Definition np_minimum (a b : Q) : Q := if ltb b a then b else a.
Definition np_clip (a lo hi : Q) : Q := np_minimum (np_maximum a lo) hi.

(** [np.linspace(start, stop, num)]: [num] evenly spaced samples, both
    ends included. *)
Definition linspace (start stop : Q) (num : nat) : list Q :=
  (fun i : nat =>
     (start + inject_Z (Z.of_nat i) * ((stop - start) / inject_Z (Z.of_nat (num - 1))))%Q)
  <$> seq 0 num.

(** Broadcasting [scalar + array] and element-wise [array + array]. *)
Definition add_scalar (s : Q) (a : list Q) : list Q := Qplus s <$> a.
Definition add_arrays (a b : list Q) : list Q := zip_with Qplus a b.

End Num.

(** ** generate_data.py *)

Module GenerateData.
Import Num.

(** *** Configuration and the global time index

    A datetime is the number of minutes elapsed since [start_date]. *)

Definition N_MACHINES : nat := 50.
Definition N_DAYS : nat := 60.
Definition FREQ : nat := 10.

Definition start_date : nat := 0.
Definition end_date : nat := start_date + N_DAYS * 1440.

(** [pd.date_range(start, end, freq)]: the grid points [start + i * freq]
    that do not exceed [end], both ends included. *)
Definition date_range (start stop freq : nat) : list nat :=
  (fun i => start + i * freq) <$> seq 0 ((stop - start) / freq + 1).

Definition time_index : list nat := date_range start_date end_date FREQ.
Definition N_STEPS : nat := length time_index.

(** *** The random draws of one call of [simulate_machine], in call order *)

Record Draws := {
  draw_base_temp : Q;                (* uniform(45, 55) *)
  draw_base_vibration : Q;           (* uniform(0.8, 1.2) *)
  draw_base_pressure : Q;            (* uniform(260, 320) *)
  draw_base_load : Q;                (* uniform(50, 70) *)
  draw_base_rpm : Q;                 (* uniform(1500, 1900) *)
  draw_temp_drift_max : Q;           (* uniform(8, 18) *)
  draw_vib_drift_max : Q;            (* uniform(0.3, 0.7) *)
  draw_temp_noise : list Q;          (* normal(0, 1.5, N_STEPS) *)
  draw_vib_noise : list Q;           (* normal(0, 0.2, N_STEPS) *)
  draw_pressure_noise : list Q;      (* normal(0, 5, N_STEPS) *)
  draw_load_noise : list Q;          (* normal(0, 5, N_STEPS) *)
  draw_rpm_noise : list Q;           (* normal(0, 40, N_STEPS) *)
  draw_base_wear_rate : Q            (* uniform(0.00015, 0.0003) *)
}.

(** [uniform(lo, hi)] returns a value of [lo, hi); [normal(_, _, n)] returns
    an array of [n] values, each of them any float. *)
Definition in_uniform (lo hi x : Q) : Prop := (lo <= x /\ x < hi)%Q.

Record wf_draws (d : Draws) : Prop := {
  wf_base_temp : in_uniform 45 55 (draw_base_temp d);
  wf_base_vibration : in_uniform 0.8 1.2 (draw_base_vibration d);
  wf_base_pressure : in_uniform 260 320 (draw_base_pressure d);
  wf_base_load : in_uniform 50 70 (draw_base_load d);
  wf_base_rpm : in_uniform 1500 1900 (draw_base_rpm d);
  wf_temp_drift_max : in_uniform 8 18 (draw_temp_drift_max d);
  wf_vib_drift_max : in_uniform 0.3 0.7 (draw_vib_drift_max d);
  wf_temp_noise : length (draw_temp_noise d) = N_STEPS;
  wf_vib_noise : length (draw_vib_noise d) = N_STEPS;
  wf_pressure_noise : length (draw_pressure_noise d) = N_STEPS;
  wf_load_noise : length (draw_load_noise d) = N_STEPS;
  wf_rpm_noise : length (draw_rpm_noise d) = N_STEPS;
  wf_base_wear_rate : in_uniform 0.00015 0.0003 (draw_base_wear_rate d)
}.

(** *** simulate_machine *)

(** The sensor signals (lines 56-60). *)
Definition temp_arr (d : Draws) : list Q :=
  let temp_drift := linspace 0 (draw_temp_drift_max d) N_STEPS in
  add_arrays (add_scalar (draw_base_temp d) temp_drift) (draw_temp_noise d).

Definition vibration_arr (d : Draws) : list Q :=
  let vib_drift := linspace 0 (draw_vib_drift_max d) N_STEPS in
  add_arrays (add_scalar (draw_base_vibration d) vib_drift) (draw_vib_noise d).

Definition pressure_arr (d : Draws) : list Q :=
  add_scalar (draw_base_pressure d) (draw_pressure_noise d).

Definition load_pct_arr (d : Draws) : list Q :=
  (fun x => np_clip x 10 110) <$> add_scalar (draw_base_load d) (draw_load_noise d).

Definition rpm_arr (d : Draws) : list Q :=
  (fun x => np_clip x 800 2200) <$> add_scalar (draw_base_rpm d) (draw_rpm_noise d).

(** The body of the loop up to [total_wear]: the stress accumulated from
    the readings of one time step (lines 69-91). *)
Definition stress_of (temp_t vibration_t load_pct_t : Q) : Q :=
  let stress := 0.0%Q in
  let stress := if gtb temp_t 65 then (stress + 0.005)%Q else stress in
  let stress := if gtb temp_t 75 then (stress + 0.010)%Q else stress in
  let stress := if gtb temp_t 85 then (stress + 0.015)%Q else stress in
  let stress := if gtb vibration_t 1.8 then (stress + 0.007)%Q else stress in
  let stress := if gtb vibration_t 2.2 then (stress + 0.012)%Q else stress in
  let stress := if gtb vibration_t 2.6 then (stress + 0.018)%Q else stress in
  let stress := if gtb load_pct_t 80 then (stress + 0.005)%Q else stress in
  let stress := if gtb load_pct_t 90 then (stress + 0.010)%Q else stress in
  stress.

(** One iteration of [for t in range(1, N_STEPS)]: the array [health_score]
    is the loop state, and iteration [t] writes its entry [t]
    (lines 68-97). *)
Definition wear_iteration (base_wear_rate : Q) (temp vibration load_pct : list Q)
    (health_score : list Q) (t : nat) : list Q :=
  let stress := stress_of (temp !!! t) (vibration !!! t) (load_pct !!! t) in
  let total_wear := (base_wear_rate + stress)%Q in
  <[t := py_max 0.0 (health_score !!! (t - 1)%nat - total_wear)%Q]> health_score.

(** [health_score = np.ones(n)] followed by the loop over [range(1, n)]. *)
Definition health_loop (n : nat) (base_wear_rate : Q) (temp vibration load_pct : list Q)
    : list Q :=
  foldl (wear_iteration base_wear_rate temp vibration load_pct)
        (replicate n 1%Q) (seq 1 (n - 1)).

Definition health_score_arr (d : Draws) : list Q :=
  health_loop N_STEPS (draw_base_wear_rate d) (temp_arr d) (vibration_arr d) (load_pct_arr d).

(** A row of the data frame; the fields are its columns. *)
Record Row := {
  machine_id : nat;
  timestamp : nat;
  temp_c : Q;
  vibration_ms2 : Q;
  pressure_psi : Q;
  load_pct : Q;
  rpm : Q;
  health_score : Q
}.

Definition simulate_machine (machine_id : nat) (d : Draws) : list Row :=
  (fun t =>
     {| machine_id := machine_id;
        timestamp := time_index !!! t;
        temp_c := temp_arr d !!! t;
        vibration_ms2 := vibration_arr d !!! t;
        pressure_psi := pressure_arr d !!! t;
        load_pct := load_pct_arr d !!! t;
        rpm := rpm_arr d !!! t;
        health_score := health_score_arr d !!! t |})
  <$> seq 0 N_STEPS.

(** *** Simulating all machines (lines 117-125)

    [draws m] are the draws consumed by the call for machine [m]. *)

(** [sort_values(["machine_id", "timestamp"])]: a stable sort on the
    lexicographic key. *)
Definition key_le (r1 r2 : Row) : bool :=
  (machine_id r1 <? machine_id r2)
  || ((machine_id r1 =? machine_id r2) && (timestamp r1 <=? timestamp r2)).

Fixpoint insert_row (r : Row) (rows : list Row) : list Row :=
  match rows with
  | [] => [r]
  | r' :: rest => if key_le r r' then r :: rows else r' :: insert_row r rest
  end.

Definition sort_values (rows : list Row) : list Row := foldr insert_row [] rows.

Definition all_data (draws : nat -> Draws) : list (list Row) :=
  (fun m => simulate_machine m (draws m)) <$> seq 0 N_MACHINES.

Definition data (draws : nat -> Draws) : list Row :=
  sort_values (concat (all_data draws)).

(** *** Failure events (lines 136-153) *)

Definition HEALTH_THRESHOLD : Q := 0.3.

(** [data["health_score"] < HEALTH_THRESHOLD] *)
Definition low_health (rows : list Row) : list bool :=
  (fun r => ltb (health_score r) HEALTH_THRESHOLD) <$> rows.

(** [groupby(key)[col].shift(1)]: every row receives the value of the
    previous row of its own group, in table order, and the first row of a
    group receives a missing value.  [last] maps a key to the value of the
    latest row seen for it. *)
Fixpoint groupby_shift (last : gmap nat bool) (keys : list nat) (col : list bool)
    : list (option bool) :=
  match keys, col with
  | k :: keys', v :: col' => last !! k :: groupby_shift (<[k := v]> last) keys' col'
  | _, _ => []
  end.

(** [.fillna(False)] *)
Definition fillna (v : bool) (col : list (option bool)) : list bool :=
  default v <$> col.

Definition low_health_prev (rows : list Row) : list bool :=
  fillna false (groupby_shift ∅ (machine_id <$> rows) (low_health rows)).

(** [data.loc[mask, col] = v] on one column. *)
Definition loc_assign (mask : list bool) (col : list Z) (v : Z) : list Z :=
  zip_with (fun (m : bool) x => if m then v else x) mask col.

(** The column [failed]. *)
Definition failed (rows : list Row) : list Z :=
  let failed0 := replicate (length rows) 0%Z in
  let mask := zip_with (fun l p => Bool.eqb l true && Bool.eqb p false)
                       (low_health rows) (low_health_prev rows) in
  loc_assign mask failed0 1%Z.

(** The table that is written out: the sensor columns and [failed] (the
    two helper columns are dropped again). *)
Definition output (draws : nat -> Draws) : list (Row * Z) :=
  zip (data draws) (failed (data draws)).

(** *** The printed summary (lines 158-161) *)

(** [Series.value_counts()]: the distinct values of a column, each with
    the number of rows that hold it, the most frequent value first.
    [count_value] counts one more row, a new value going to the end;
    [insert_count] keeps the counts in descending order. *)
Fixpoint count_value (v : Z) (counts : list (Z * Z)) : list (Z * Z) :=
  match counts with
  | [] => [(v, 1%Z)]
  | (w, n) :: rest =>
      if (v =? w)%Z then (w, (n + 1)%Z) :: rest else (w, n) :: count_value v rest
  end.

Fixpoint insert_count (c : Z * Z) (counts : list (Z * Z)) : list (Z * Z) :=
  match counts with
  | [] => [c]
  | c' :: rest => if (c'.2 <=? c.2)%Z then c :: counts else c' :: insert_count c rest
  end.

Definition value_counts (col : list Z) : list (Z * Z) :=
  foldr insert_count [] (foldl (fun counts v => count_value v counts) [] col).

(** [groupby(key)[col].sum()]: the sum of the column over the rows of each
    key, the keys in increasing order. *)
Fixpoint add_to_group (k : nat) (v : Z) (sums : list (nat * Z)) : list (nat * Z) :=
  match sums with
  | [] => [(k, v)]
  | (k', s) :: rest =>
      if (k =? k')%nat then (k', (s + v)%Z) :: rest
      else if (k <? k')%nat then (k, v) :: sums
      else (k', s) :: add_to_group k v rest
  end.

Definition groupby_sum (keys : list nat) (col : list Z) : list (nat * Z) :=
  foldl (fun sums kv => add_to_group kv.1 kv.2 sums) [] (zip keys col).

End GenerateData.

(** ** api.py *)

Module Api.
Import Num.
Local Open Scope string_scope.

(** A decoded JSON value, as the request body delivers it. *)
#[warnings="-register-all"]
Inductive json :=
| JNull
| JBool (b : bool)
| JInt (z : Z)
| JFloat (x : Q)
| JStr (s : string)
| JList (items : list json)
| JDict (items : list (string * json)).

(** The exceptions the handler can raise, and results of fallible code. *)
Inductive exn := ValueError | TypeError | OverflowError.

Inductive result (A : Type) :=
| Ok (a : A)
| Raise (e : exn).
Arguments Ok {A} a.
Arguments Raise {A} e.

Definition bind {A B} (r : result A) (k : A -> result B) : result B :=
  match r with
  | Ok a => k a
  | Raise e => Raise e
  end.

Notation "'do' x <- r ; k" := (bind r (fun x => k))
  (at level 10, x name, r at level 100, k at level 200).

(** A list comprehension whose element expression can raise: the elements
    are evaluated from left to right and the first exception ends it. *)
Fixpoint comprehension {A B} (f : A -> result B) (l : list A) : result (list B) :=
  match l with
  | [] => Ok []
  | a :: l' => do b <- f a; do bs <- comprehension f l'; Ok (b :: bs)
  end.

(** The loaded artifact: the fitted classifier, seen as the function from
    one input row to the probability [predict_proba(x)[0, 1]] of class 1,
    and the ordered feature names. *)
Record Artifact := {
  model : list Q -> Q;
  feature_cols : list string
}.

(** The request schema. *)
Record FeatureVector := {
  features : gmap string json
}.

(** [round(x, ndigits)]: the nearest multiple of [10 ^ -ndigits], a tie
    going to the even one. *)
Definition round_half_even (x : Q) : Z :=
  let f := Qfloor x in
  let r := (x - inject_Z f)%Q in
  if ltb r 0.5 then f
  else if ltb 0.5 r then (f + 1)%Z
  else if Z.even f then f else (f + 1)%Z.

Definition py_round (x : Q) (ndigits : nat) : Q :=
  let scale := (10 ^ Z.of_nat ndigits)%Z in
  (inject_Z (round_half_even (x * inject_Z scale)) / inject_Z scale)%Q.

Definition LOW_RISK : string :=
  "Low risk: continue normal operation, routine monitoring.".
Definition MODERATE_RISK : string :=
  "Moderate risk: schedule inspection in the next maintenance window.".
Definition HIGH_RISK : string :=
  "High risk: schedule maintenance as soon as possible to avoid unplanned downtime.".

(** The response of [GET /sample_payload]. *)
Record SamplePayload := {
  note : string;
  features_example : gmap string json
}.

(** [float(z)] on an integer.  The result is the binary64 float nearest
    to [z]: [z] itself when it has at most 53 significant bits, and else
    [z] rounded to 53 significant bits, a tie going to the even
    neighbour.  When that is beyond the largest float (from
    [2^1024 - 2^970] on) the builtin raises [OverflowError]. *)
Definition nearest_float (z : Z) : Z :=
  let a := Z.abs z in
  let shift := Z.max 0 (Z.log2 a + 1 - 53) in
  (Z.sgn z * (round_half_even (inject_Z a / inject_Z (2 ^ shift)) * 2 ^ shift))%Z.

Definition int_to_float (z : Z) : result Q :=
  let x := nearest_float z in
  if (2 ^ 1024 <=? Z.abs x)%Z then Raise OverflowError else Ok (inject_Z x).

Section Handlers.

(** [float(s)] on a string, a builtin of the language: [None] stands for
    its [ValueError]. *)
Variable str_to_float : string -> option Q.

Variable artifact : Artifact.

(** The builtin [float(v)]. *)
Definition py_float (v : json) : result Q :=
  match v with
  | JFloat x => Ok x
  | JInt z => int_to_float z
  | JBool b => Ok (if b then 1.0 else 0.0)%Q
  | JStr s =>
      match str_to_float s with
      | Some x => Ok x
      | None => Raise ValueError
      end
  | JNull | JList _ | JDict _ => Raise TypeError
  end.

(** The row [x] (line 55). *)
Definition build_x (payload : FeatureVector) : result (list Q) :=
  comprehension
    (fun col => py_float (default (JFloat 0.0) (features payload !! col)))
    (feature_cols artifact).

(** Lines 61-66. *)
Definition recommend (proba : Q) : string :=
  if ltb proba 0.3 then LOW_RISK
  else if ltb proba 0.7 then MODERATE_RISK
  else HIGH_RISK.

(** [POST /predict_24h]; the response is the returned dict. *)
Definition predict_failure_24h (payload : FeatureVector)
    : result (list (string * json)) :=
  do x <- build_x payload;
  let proba := model artifact x in
  let recommendation := recommend proba in
  Ok [("failure_probability_24h", JFloat (py_round proba 3));
      ("recommendation", JStr recommendation)].

(** [GET /]: the health check. *)
Definition read_root : list (string * json) :=
  [("message", JStr "Predictive Maintenance API is running.");
   ("model_features_count", JInt (Z.of_nat (length (feature_cols artifact))))].

(** The dict comprehension [{col: 0.0 for col in feature_cols[:10]}]: the
    names are stored one after the other, a repeated name keeping one
    entry. *)
Definition example_features : gmap string json :=
  foldl (fun d col => <[col := JFloat 0.0]> d) ∅ (take 10 (feature_cols artifact)).

(** [GET /sample_payload]: the returned dict, a field per key. *)
Definition sample_payload : SamplePayload :=
  {| note := "Use these feature keys in the 'features' dict when POSTing to /predict_24h.";
     features_example := example_features |}.

End Handlers.

(** A reader of plain decimal literals ([-12.5], [3], [+0.25]), one
    instance of the behaviour of [float] on strings. *)
Definition digit_of (c : ascii) : option Z :=
  let n := Z.of_nat (nat_of_ascii c) in
  if ((48 <=? n) && (n <=? 57))%Z then Some (n - 48)%Z else None.

Fixpoint digits_value (acc : Z) (cs : list ascii) : option Z :=
  match cs with
  | [] => Some acc
  | c :: cs' =>
      match digit_of c with
      | Some v => digits_value (10 * acc + v)%Z cs'
      | None => None
      end
  end.

Fixpoint split_dot (cs : list ascii) : list ascii * option (list ascii) :=
  match cs with
  | [] => ([], None)
  | c :: cs' =>
      if Ascii.eqb c "." then ([], Some cs')
      else let '(a, b) := split_dot cs' in (c :: a, b)
  end.

Definition unsigned_literal (cs : list ascii) : option Q :=
  match split_dot cs with
  | ([], _) => None
  | (ip, None) => inject_Z <$> digits_value 0 ip
  | (ip, Some fp) =>
      match fp, digits_value 0 (ip ++ fp) with
      | _ :: _, Some v => Some (v # Pos.pow 10 (Pos.of_nat (length fp)))
      | _, _ => None
      end
  end.

Definition decimal_literal (s : string) : option Q :=
  match list_ascii_of_string s with
  | "-"%char :: cs => Qopp <$> unsigned_literal cs
  | "+"%char :: cs => unsigned_literal cs
  | cs => unsigned_literal cs
  end.

End Api.

(** ** The stress rule on binary64

    The same sequence of comparisons and additions as [stress_of], on the
    floats the script computes with. *)

Module Binary64.

#[warnings="-inexact-float"]
Definition stress_of (temp_t vibration_t load_pct_t : float) : float :=
  let stress := 0.0%float in
  let stress := if (65 <? temp_t)%float then (stress + 0.005)%float else stress in
  let stress := if (75 <? temp_t)%float then (stress + 0.010)%float else stress in
  let stress := if (85 <? temp_t)%float then (stress + 0.015)%float else stress in
  let stress := if (1.8 <? vibration_t)%float then (stress + 0.007)%float else stress in
  let stress := if (2.2 <? vibration_t)%float then (stress + 0.012)%float else stress in
  let stress := if (2.6 <? vibration_t)%float then (stress + 0.018)%float else stress in
  let stress := if (80 <? load_pct_t)%float then (stress + 0.005)%float else stress in
  let stress := if (90 <? load_pct_t)%float then (stress + 0.010)%float else stress in
  stress.

(** The builtin [max(a, b)] and one iteration of the loop on the scalars
    it reads: the score of the previous step and the readings of this
    step (lines 69-97). *)
Definition py_max (a b : float) : float := if (a <? b)%float then b else a.




End Binary64.

(** ** Vocabulary of the specification *)

Module Spec.
Import Num GenerateData Api.

(** The stress rule in the words of the specification: per sensor, a table
    of ascending thresholds with the increment each one adds, and the
    stress of a step is the sum of the increments of all thresholds that
    the step's readings exceed. *)
Definition temp_steps : list (Q * Q) := [(65, 0.005); (75, 0.010); (85, 0.015)]%Q.
Definition vibration_steps : list (Q * Q) := [(1.8, 0.007); (2.2, 0.012); (2.6, 0.018)]%Q.
Definition load_steps : list (Q * Q) := [(80, 0.005); (90, 0.010)]%Q.

Definition accrued (steps : list (Q * Q)) (x : Q) : Q :=
  foldr (fun s acc => if gtb x s.1 then (s.2 + acc)%Q else acc) 0%Q steps.

Definition all_increments (steps : list (Q * Q)) : Q :=
  foldr (fun s acc => (s.2 + acc)%Q) 0%Q steps.

Definition stress_spec (temp_t vibration_t load_pct_t : Q) : Q :=
  (accrued temp_steps temp_t + accrued vibration_steps vibration_t
   + accrued load_steps load_pct_t)%Q.


(** The health score of step [t] as a recurrence on [t]. *)
Fixpoint health_at (base_wear_rate : Q) (temp vibration load_pct : list Q) (t : nat) : Q :=
  match t with
  | O => 1%Q
  | S t' =>
      py_max 0.0
        (health_at base_wear_rate temp vibration load_pct t'
         - (base_wear_rate + stress_of (temp !!! t) (vibration !!! t) (load_pct !!! t)))%Q
  end.

(** Properties of a health-score series. *)
Definition non_increasing (hs : list Q) : Prop :=
  forall i x y, hs !! i = Some x -> hs !! S i = Some y -> (y <= x)%Q.

Definition is_low (x : Q) : Prop := (x < HEALTH_THRESHOLD)%Q.

Definition never_recovers (hs : list Q) : Prop :=
  forall i j x y, (i <= j)%nat -> hs !! i = Some x -> hs !! j = Some y ->
                  is_low x -> is_low y.

(** The rows of one machine in a table, in table order, and the number of
    failure events among rows. *)
Definition machine_rows (m : nat) (table : list (Row * Z)) : list (Row * Z) :=
  filter (fun r => machine_id r.1 = m) table.

Definition failure_events (table : list (Row * Z)) : nat :=
  length (filter (fun r => r.2 = 1%Z) table).

(** The failure pass of one series: [prev] is the low flag of the previous
    row. *)
Fixpoint crossings (prev : bool) (lows : list bool) : list Z :=
  match lows with
  | [] => []
  | l :: rest => (if l && negb prev then 1%Z else 0%Z) :: crossings l rest
  end.

(** The failure pass started with the per-machine flags [last] already
    seen. *)
Fixpoint failed_from (last : gmap nat bool) (rows : list Row) : list Z :=
  match rows with
  | [] => []
  | r :: rest =>
      let l := ltb (health_score r) HEALTH_THRESHOLD in
      (if l && negb (default false (last !! machine_id r)) then 1%Z else 0%Z)
        :: failed_from (<[machine_id r := l]> last) rest
  end.

(** The block of one machine in the output table. *)
Definition machine_block (draws : nat -> Draws) (m : nat) : list (Row * Z) :=
  zip (simulate_machine m (draws m))
      (crossings false (low_health (simulate_machine m (draws m)))).

(** A series of low flags in which a low row is never followed by a row
    that is not low. *)
Definition stays_low (lows : list bool) : Prop :=
  StronglySorted (fun a b : bool => a = true -> b = true) lows.

(** The per-machine flags seen once the pass has gone over [rows]. *)
Definition seen_after (last : gmap nat bool) (rows : list Row) : gmap nat bool :=
  foldl (fun st r => <[machine_id r := ltb (health_score r) HEALTH_THRESHOLD]> st)
        last rows.

(** The low flag of the latest row of machine [m] among [rows], if the
    machine has a row there. *)
Definition latest_low (m : nat) (rows : list Row) : option bool :=
  last ((fun r => ltb (health_score r) HEALTH_THRESHOLD)
          <$> filter (fun r => machine_id r = m) rows).

(** The order of [sort_values] as a relation. *)
Definition key_rel (r1 r2 : Row) : Prop := key_le r1 r2 = true.

(** Row [t] of the data frame of one machine. *)
Definition row_at (machine : nat) (d : Draws) (t : nat) : Row :=
  {| machine_id := machine;
     timestamp := time_index !!! t;
     temp_c := temp_arr d !!! t;
     vibration_ms2 := vibration_arr d !!! t;
     pressure_psi := pressure_arr d !!! t;
     load_pct := load_pct_arr d !!! t;
     rpm := rpm_arr d !!! t;
     health_score := health_score_arr d !!! t |}.

(** An integer that a float holds exactly. *)
Definition exact_int (z : Z) : bool :=
  ((nearest_float z =? z) && (Z.abs z <? 2 ^ 1024))%Z.

(** The number a JSON number stands for, when a float holds it exactly;
    other integers and other JSON values stand for none. *)
Definition numeric_value (v : json) : option Q :=
  match v with
  | JFloat x => Some x
  | JInt z => if exact_int z then Some (inject_Z z) else None
  | _ => None
  end.

(** A JSON value that is not a JSON number. *)
Definition non_numeric (v : json) : Prop :=
  match v with
  | JFloat _ | JInt _ => False
  | _ => True
  end.

(** The input row in the words of the specification: one entry per stored
    feature name, in the stored order, the value given for the name or
    0.0 if the mapping has none. *)
Definition expected_x (artifact : Artifact) (payload : FeatureVector) : list Q :=
  (fun col => default 0.0%Q (features payload !! col ≫= numeric_value))
  <$> feature_cols artifact.

(** A value that [float] accepts, and what it becomes. *)
Definition coerced (str_to_float : string -> option Q) (v : json) : option Q :=
  match v with
  | JFloat x => Some x
  | JInt z => match int_to_float z with Ok x => Some x | Raise _ => None end
  | JBool true => Some 1.0%Q
  | JBool false => Some 0.0%Q
  | JStr s => str_to_float s
  | _ => None
  end.

(** The rule on malformed values in the words of the specification: a
    request that holds a value that is not a number under a feature name
    of the model fails, with an error of the kind [InvalidInput]. *)
Definition malformed_values_rejected (str_to_float : string -> option Q)
    (InvalidInput : exn -> Prop) : Prop :=
  forall (artifact : Artifact) (payload : FeatureVector) (col : string) (v : json),
    col ∈ feature_cols artifact -> features payload !! col = Some v -> non_numeric v ->
    exists e, predict_failure_24h str_to_float artifact payload = Raise e /\ InvalidInput e.

(** A multiple of [10 ^ -ndigits]. *)
Definition has_decimals (ndigits : nat) (x : Q) : Prop :=
  exists k : Z, (x == inject_Z k / inject_Z (10 ^ Z.of_nat ndigits))%Q.

End Spec.

(** ** Concrete inputs used as examples *)

Module Samples.
Import Num GenerateData Api.
Local Open Scope string_scope.

(** A model with two features whose score is a tenth of their sum. *)
Definition two_features : Artifact :=
  {| model := fun x => (foldr Qplus 0 x / 10)%Q;
     feature_cols := ["f1"; "f2"] |}.

(** Requests. *)
Definition empty_request : FeatureVector := {| features := ∅ |}.
Definition numeric_request : FeatureVector :=
  {| features := {[ "f1" := JFloat 0.5; "f2" := JInt 2 ]} |}.
Definition extra_null_request : FeatureVector :=
  {| features := {[ "f1" := JFloat 0.5; "extra" := JNull ]} |}.
Definition coerced_request : FeatureVector :=
  {| features := {[ "f1" := JStr "1.5"; "f2" := JBool true ]} |}.
Definition null_request : FeatureVector :=
  {| features := {[ "f1" := JNull ]} |}.
Definition half_request : FeatureVector :=
  {| features := {[ "f1" := JFloat 0.5 ]} |}.
Definition two_errors_request : FeatureVector :=
  {| features := {[ "f1" := JStr "abc"; "f2" := JNull ]} |}.
Definition bool_request : FeatureVector :=
  {| features := {[ "f1" := JBool true ]} |}.
Definition huge_request : FeatureVector :=
  {| features := {[ "f1" := JInt (10 ^ 400); "f2" := JNull ]} |}.
Definition near_cut_request : FeatureVector :=
  {| features := {[ "f1" := JFloat 2.996 ]} |}.

(** A table in which the rows of two machines alternate. *)
Definition reading (m : nat) (minutes : nat) (h : Q) : Row :=
  {| machine_id := m; timestamp := minutes;
     temp_c := 50; vibration_ms2 := 1; pressure_psi := 300; load_pct := 60; rpm := 1700;
     health_score := h |}.

Definition interleaved_rows : list Row :=
  [reading 0 0 0.2; reading 1 0 0.9; reading 0 10 0.1; reading 1 10 0.2].


(** Draws of a machine without noise. *)
Definition quiet_draws : Draws :=
  {| draw_base_temp := 50;
     draw_base_vibration := 1;
     draw_base_pressure := 300;
     draw_base_load := 60;
     draw_base_rpm := 1700;
     draw_temp_drift_max := 10;
     draw_vib_drift_max := 0.5;
     draw_temp_noise := replicate N_STEPS 0%Q;
     draw_vib_noise := replicate N_STEPS 0%Q;
     draw_pressure_noise := replicate N_STEPS 0%Q;
     draw_load_noise := replicate N_STEPS 0%Q;
     draw_rpm_noise := replicate N_STEPS 0%Q;
     draw_base_wear_rate := 0.0002 |}.

(** Draws whose noise is chosen so that, at step [t], the temperature,
    vibration and pressure readings are three given values. *)
Definition tuned_draws (t : nat) (x_temp x_vib x_pres : Q) : Draws :=
  {| draw_base_temp := 50;
     draw_base_vibration := 1;
     draw_base_pressure := 300;
     draw_base_load := 60;
     draw_base_rpm := 1700;
     draw_temp_drift_max := 10;
     draw_vib_drift_max := 0.5;
     draw_temp_noise :=
       replicate N_STEPS (x_temp - (50 + linspace 0 10 N_STEPS !!! t))%Q;
     draw_vib_noise :=
       replicate N_STEPS (x_vib - (1 + linspace 0 0.5 N_STEPS !!! t))%Q;
     draw_pressure_noise := replicate N_STEPS (x_pres - 300)%Q;
     draw_load_noise := replicate N_STEPS 0%Q;
     draw_rpm_noise := replicate N_STEPS 0%Q;
     draw_base_wear_rate := 0.0002 |}.

End Samples.

(** ** Facts about the numeric primitives *)

Section NumFacts.
Import Num.

Lemma ltb_lt x y : ltb x y = true <-> (x < y)%Q.
Proof.
  unfold ltb. rewrite negb_true_iff.
  destruct (Qle_bool y x) eqn:E.
  - apply Qle_bool_iff in E. split; [discriminate | intros H; lra].
  - split; [intros _ | reflexivity].
    apply Qnot_le_lt. intros H. apply Qle_bool_iff in H. congruence.
Qed.

Lemma ltb_ge x y : ltb x y = false <-> (y <= x)%Q.
Proof.
  unfold ltb. rewrite negb_false_iff. apply Qle_bool_iff.
Qed.

Lemma py_max_ge_l a b : (a <= py_max a b)%Q.
Proof.
  unfold py_max, gtb. destruct (ltb a b) eqn:E; [apply ltb_lt in E|]; lra.
Qed.

Lemma py_max_ge_r a b : (b <= py_max a b)%Q.
Proof.
  unfold py_max, gtb. destruct (ltb a b) eqn:E; [|apply ltb_ge in E]; lra.
Qed.

Lemma py_max_cases a b :
  (py_max a b = a /\ (b <= a)%Q) \/ (py_max a b = b /\ (a < b)%Q).
Proof.
  unfold py_max, gtb. destruct (ltb a b) eqn:E.
  - right. apply ltb_lt in E. auto.
  - left. apply ltb_ge in E. auto.
Qed.

Lemma np_clip_bounds a lo hi : (lo <= hi)%Q -> (lo <= np_clip a lo hi <= hi)%Q.
Proof.
  intros Hb. unfold np_clip, np_minimum, np_maximum.
  destruct (ltb a lo) eqn:E1.
  - apply ltb_lt in E1. destruct (ltb hi lo) eqn:E2.
    + apply ltb_lt in E2. lra.
    + lra.
  - apply ltb_ge in E1. destruct (ltb hi a) eqn:E2.
    + lra.
    + apply ltb_ge in E2. lra.
Qed.

Lemma length_linspace start stop num : length (linspace start stop num) = num.
Proof. unfold linspace. rewrite length_map. apply length_seq. Qed.


Lemma py_max_Qmax a b : (py_max a b == Qmax a b)%Q.
Proof.
  destruct (py_max_cases a b) as [[-> H]|[-> H]].
  - symmetry. apply Q.max_l. exact H.
  - symmetry. apply Q.max_r. lra.
Qed.

Lemma lookup_total_linspace start stop num i :
  (i < num)%nat ->
  linspace start stop num !!! i
  = (start + inject_Z (Z.of_nat i) * ((stop - start) / inject_Z (Z.of_nat (num - 1))))%Q.
Proof.
  intros Hi. unfold linspace.
  apply list_lookup_total_correct.
  rewrite list_lookup_fmap, lookup_seq_lt by lia. reflexivity.
Qed.

End NumFacts.

(** ** The health-score loop *)

Section HealthLoop.
Import Num GenerateData Spec.

Variable base_wear_rate : Q.
Variables temp vibration load_pct : list Q.

Let iteration := wear_iteration base_wear_rate temp vibration load_pct.
Let health := health_at base_wear_rate temp vibration load_pct.

(** After the iterations [1 .. k] the entries [0 .. k] hold their final
    values and the other entries still hold the initial [1]. *)
Lemma health_loop_prefix n k :
  (k <= n - 1)%nat ->
  length (foldl iteration (replicate n 1%Q) (seq 1 k)) = n /\
  forall t, (t < n)%nat ->
    foldl iteration (replicate n 1%Q) (seq 1 k) !!! t
    = if decide (t <= k)%nat then health t else 1%Q.
Proof.
  induction k as [|k IH]; intros Hk.
  - simpl. split; [apply length_replicate|].
    intros t Ht. rewrite lookup_total_replicate_2 by exact Ht.
    destruct (decide (t <= 0)%nat) as [H0|H0]; [|reflexivity].
    replace t with 0%nat by lia. reflexivity.
  - destruct IH as [IHlen IHval]; [lia|].
    rewrite seq_S, foldl_snoc.
    remember (foldl iteration (replicate n 1%Q) (seq 1 k)) as hs eqn:Ehs.
    unfold iteration, wear_iteration. cbn [Nat.add Nat.sub].
    split; [rewrite length_insert; exact IHlen|].
    intros t Ht. destruct (decide (t = S k)) as [->|Hne].
    + rewrite list_lookup_total_insert_eq by lia.
      rewrite Nat.sub_0_r, IHval by lia.
      destruct (decide (k <= k)%nat); [|lia].
      destruct (decide (S k <= S k)%nat); [|lia].
      reflexivity.
    + rewrite list_lookup_total_insert_ne by congruence.
      rewrite IHval by exact Ht.
      destruct (decide (t <= k)%nat), (decide (t <= S k)%nat); try lia; reflexivity.
Qed.

Lemma length_health_loop n :
  length (health_loop n base_wear_rate temp vibration load_pct) = n.
Proof. unfold health_loop. apply (health_loop_prefix n (n - 1)). lia. Qed.

Lemma health_loop_lookup n t :
  (t < n)%nat ->
  health_loop n base_wear_rate temp vibration load_pct !!! t = health t.
Proof.
  intros Ht. unfold health_loop.
  destruct (health_loop_prefix n (n - 1)) as [_ H]; [lia|].
  rewrite H by exact Ht. destruct (decide (t <= n - 1)%nat); [reflexivity|lia].
Qed.

End HealthLoop.

(** ** The stress rule *)

Section Stress.
Import Num GenerateData Spec.

Ltac split_thresholds :=
  repeat match goal with
         | |- context [gtb ?x ?c] => destruct (gtb x c) eqn:?
         end.

Lemma stress_of_spec temp_t vibration_t load_pct_t :
  (stress_of temp_t vibration_t load_pct_t
   == stress_spec temp_t vibration_t load_pct_t)%Q.
Proof.
  unfold stress_of, stress_spec, accrued, temp_steps, vibration_steps, load_steps.
  cbn [foldr fst snd].
  split_thresholds; lra.
Qed.

Lemma stress_of_nonneg temp_t vibration_t load_pct_t :
  (0 <= stress_of temp_t vibration_t load_pct_t)%Q.
Proof. unfold stress_of. split_thresholds; lra. Qed.

Lemma stress_of_le temp_t vibration_t load_pct_t :
  (stress_of temp_t vibration_t load_pct_t <= 0.082)%Q.
Proof. unfold stress_of. split_thresholds; lra. Qed.

(** A reading above a threshold is above the lower ones too. *)
Lemma gtb_trans x a b : (a <= b)%Q -> gtb x b = true -> gtb x a = true.
Proof.
  unfold gtb. intros Hab H. apply ltb_lt in H. apply ltb_lt. lra.
Qed.

Lemma accrued_above_all steps x :
  Forall (fun s => gtb x s.1 = true) steps ->
  accrued steps x = all_increments steps.
Proof.
  induction 1 as [|s steps Hs _ IH]; [reflexivity|].
  unfold accrued, all_increments in *. cbn [foldr]. rewrite Hs, IH. reflexivity.
Qed.

End Stress.

(** ** The health score as a recurrence *)

Section HealthFacts.
Import Num GenerateData Spec.

Variable base_wear_rate : Q.
Variables temp vibration load_pct : list Q.

Let health := health_at base_wear_rate temp vibration load_pct.
Let stress (t : nat) : Q := stress_of (temp !!! t) (vibration !!! t) (load_pct !!! t).

Lemma health_at_step t :
  health (S t) = py_max 0.0 (health t - (base_wear_rate + stress (S t)))%Q.
Proof. reflexivity. Qed.

Lemma health_at_nonneg t : (0 <= health t)%Q.
Proof.
  destruct t as [|t]; [unfold health; simpl; lra|].
  rewrite health_at_step.
  pose proof (py_max_ge_l 0.0 (health t - (base_wear_rate + stress (S t)))). lra.
Qed.

Lemma health_at_succ_le t : (0 <= base_wear_rate)%Q -> (health (S t) <= health t)%Q.
Proof.
  intros Hb. rewrite health_at_step.
  pose proof (health_at_nonneg t) as H0.
  pose proof (stress_of_nonneg (temp !!! S t) (vibration !!! S t) (load_pct !!! S t)) as Hs.
  fold (stress (S t)) in Hs.
  destruct (py_max_cases 0.0 (health t - (base_wear_rate + stress (S t)))) as [[-> _]|[-> _]]; lra.
Qed.

Lemma health_at_le_1 t : (0 <= base_wear_rate)%Q -> (health t <= 1)%Q.
Proof.
  intros Hb. induction t as [|t IH]; [unfold health; simpl; lra|].
  pose proof (health_at_succ_le t Hb). lra.
Qed.

Lemma health_at_antitone i j :
  (0 <= base_wear_rate)%Q -> (i <= j)%nat -> (health j <= health i)%Q.
Proof.
  intros Hb Hij. induction Hij as [|j _ IH]; [lra|].
  pose proof (health_at_succ_le j Hb). lra.
Qed.

Lemma health_at_drop t :
  (health t - health (S t) <= base_wear_rate + 0.082)%Q.
Proof.
  rewrite health_at_step.
  pose proof (py_max_ge_r 0.0 (health t - (base_wear_rate + stress (S t)))) as H.
  pose proof (stress_of_le (temp !!! S t) (vibration !!! S t) (load_pct !!! S t)) as Hs.
  fold (stress (S t)) in Hs. lra.
Qed.

(** While the score is positive it lies under the line of pure base
    wear. *)
Lemma health_at_linear t :
  (0 <= base_wear_rate)%Q -> (0 < health t)%Q ->
  (health t <= 1 - inject_Z (Z.of_nat t) * base_wear_rate)%Q.
Proof.
  intros Hb. induction t as [|t IH]; intros Hpos.
  - change (inject_Z (Z.of_nat 0)) with 0%Q. unfold health. simpl. lra.
  - assert (Hinj : (inject_Z (Z.of_nat (S t)) * base_wear_rate
                    == inject_Z (Z.of_nat t) * base_wear_rate + base_wear_rate)%Q).
    { rewrite Nat2Z.inj_succ. unfold Z.succ. rewrite inject_Z_plus. ring. }
    rewrite Hinj. revert Hpos. rewrite health_at_step.
    pose proof (stress_of_nonneg (temp !!! S t) (vibration !!! S t) (load_pct !!! S t)) as Hs.
    fold (stress (S t)) in Hs.
    destruct (py_max_cases 0.0 (health t - (base_wear_rate + stress (S t))))
      as [[-> _]|[-> Hlt]]; intros Hpos; [lra|].
    assert (Ht : (0 < health t)%Q) by lra.
    specialize (IH Ht). lra.
Qed.

End HealthFacts.

(** ** The data frame of one machine *)

Section Machine.
Import Num GenerateData Spec.

Lemma N_STEPS_value : Z.of_nat N_STEPS = 8641%Z.
Proof.
  unfold N_STEPS, time_index, date_range. rewrite length_fmap, length_seq.
  vm_compute. reflexivity.
Qed.

Lemma N_MACHINES_value : N_MACHINES = 50%nat.
Proof. reflexivity. Qed.

Lemma time_index_lookup t : (t < N_STEPS)%nat -> time_index !! t = Some (10 * t)%nat.
Proof.
  intros Ht. unfold time_index, date_range.
  rewrite list_lookup_fmap, lookup_seq_lt.
  - unfold start_date, FREQ. cbv [fmap option_fmap option_map]. f_equal. lia.
  - unfold N_STEPS, time_index, date_range in Ht.
    rewrite length_fmap, length_seq in Ht. exact Ht.
Qed.

Lemma length_simulate_machine machine d : length (simulate_machine machine d) = N_STEPS.
Proof. unfold simulate_machine. rewrite length_fmap. apply length_seq. Qed.

Lemma simulate_machine_lookup machine d t :
  (t < N_STEPS)%nat -> simulate_machine machine d !! t = Some (row_at machine d t).
Proof.
  intros Ht. unfold simulate_machine.
  rewrite list_lookup_fmap, lookup_seq_lt by exact Ht. reflexivity.
Qed.

Lemma simulate_machine_lookup_inv machine d t r :
  simulate_machine machine d !! t = Some r -> (t < N_STEPS)%nat /\ r = row_at machine d t.
Proof.
  intros H. assert (Ht : (t < N_STEPS)%nat).
  { rewrite <- (length_simulate_machine machine d). eapply lookup_lt_Some, H. }
  rewrite simulate_machine_lookup in H by exact Ht. split; congruence.
Qed.

Lemma health_score_arr_lookup d t :
  (t < N_STEPS)%nat ->
  health_score_arr d !!! t
  = health_at (draw_base_wear_rate d) (temp_arr d) (vibration_arr d) (load_pct_arr d) t.
Proof. intros Ht. unfold health_score_arr. apply health_loop_lookup. exact Ht. Qed.

End Machine.

(** From here on the length of the time grid is used through
    [N_STEPS_value] and [time_index_lookup] only. *)
Opaque GenerateData.N_STEPS GenerateData.time_index.

(** ** The health-score claims *)

Import Num GenerateData Spec Samples.

Lemma py_max_0_Qmax x y : (x == y)%Q -> (py_max 0.0 x == Qmax 0 y)%Q.
Proof.
  intros Hxy.
  destruct (Qlt_le_dec 0 y) as [Hy|Hy].
  - rewrite (Q.max_r 0 y) by lra.
    destruct (py_max_cases 0.0 x) as [[-> H]|[-> H]]; lra.
  - rewrite (Q.max_l 0 y) by lra.
    destruct (py_max_cases 0.0 x) as [[-> H]|[-> H]]; lra.
Qed.

Lemma one_lt_N_STEPS : (1 < N_STEPS)%nat.
Proof. pose proof N_STEPS_value. lia. Qed.

Lemma health_score_row machine d t :
  (t < N_STEPS)%nat ->
  health_score (row_at machine d t)
  = health_at (draw_base_wear_rate d) (temp_arr d) (vibration_arr d) (load_pct_arr d) t.
Proof. intros Ht. unfold row_at. cbn [health_score]. apply health_score_arr_lookup, Ht. Qed.

Lemma consecutive_rows machine d t :
  (0 < t < N_STEPS)%nat ->
  simulate_machine machine d !! (t - 1)%nat = Some (row_at machine d (t - 1)) /\
  simulate_machine machine d !! t = Some (row_at machine d t).
Proof. intros Ht. split; apply simulate_machine_lookup; lia. Qed.

Lemma accrued_temp_top x : (85 < x)%Q -> (accrued temp_steps x == 0.005 + 0.010 + 0.015)%Q.
Proof.
  intros Hx. rewrite accrued_above_all.
  - unfold all_increments, temp_steps. cbn [foldr fst snd]. lra.
  - unfold temp_steps. repeat constructor; cbn [fst]; apply ltb_lt; lra.
Qed.

Lemma accrued_vibration_top x : (2.6 < x)%Q -> (accrued vibration_steps x == 0.007 + 0.012 + 0.018)%Q.
Proof.
  intros Hx. rewrite accrued_above_all.
  - unfold all_increments, vibration_steps. cbn [foldr fst snd]. lra.
  - unfold vibration_steps. repeat constructor; cbn [fst]; apply ltb_lt; lra.
Qed.

Lemma accrued_load_top x : (90 < x)%Q -> (accrued load_steps x == 0.005 + 0.010)%Q.
Proof.
  intros Hx. rewrite accrued_above_all.
  - unfold all_increments, load_steps. cbn [foldr fst snd]. lra.
  - unfold load_steps. repeat constructor; cbn [fst]; apply ltb_lt; lra.
Qed.

(** C1.  For every machine and every step [t > 0] of its series, the
    health score of row [t] is [max(0, previous score - (base wear rate +
    stress))], where the stress is the sum of the increments of all
    thresholds that the temperature, vibration and load of row [t] itself
    exceed (65/75/85, 1.8/2.2/2.6 and 80/90 with their increments); a
    reading above the highest threshold of a sensor accrues all of that
    sensor's increments. *)
Theorem health_score_recurrence (machine : nat) (d : Draws) (t : nat) :
  (0 < t < N_STEPS)%nat ->
  (exists prev cur : Row,
     simulate_machine machine d !! (t - 1)%nat = Some prev /\
     simulate_machine machine d !! t = Some cur /\
     (health_score cur ==
        Qmax 0 (health_score prev
                - (draw_base_wear_rate d
                   + stress_spec (temp_c cur) (vibration_ms2 cur) (load_pct cur))))%Q) /\
  (forall x, (85 < x)%Q -> (accrued temp_steps x == 0.005 + 0.010 + 0.015)%Q) /\
  (forall x, (2.6 < x)%Q -> (accrued vibration_steps x == 0.007 + 0.012 + 0.018)%Q) /\
  (forall x, (90 < x)%Q -> (accrued load_steps x == 0.005 + 0.010)%Q).
Proof.
  intros Ht. split; [|split; [|split]];
    [|exact accrued_temp_top|exact accrued_vibration_top|exact accrued_load_top].
  destruct (consecutive_rows machine d t Ht) as [Hprev Hcur].
  exists (row_at machine d (t - 1)), (row_at machine d t).
  split; [exact Hprev|]. split; [exact Hcur|].
  rewrite !health_score_row by lia.
  destruct t as [|t]; [lia|].
  replace (S t - 1)%nat with t by lia.
  rewrite health_at_step. apply py_max_0_Qmax.
  unfold row_at. cbn [temp_c vibration_ms2 load_pct].
  rewrite stress_of_spec. reflexivity.
Qed.

Lemma quiet_draws_wf : wf_draws quiet_draws.
Proof.
  split; try apply length_replicate;
    unfold in_uniform, quiet_draws;
    cbn [draw_base_temp draw_base_vibration draw_base_pressure draw_base_load
         draw_base_rpm draw_temp_drift_max draw_vib_drift_max draw_base_wear_rate];
    lra.
Qed.

(** C1 at the first step of the quiet machine. *)
Lemma health_score_recurrence_witness :
  (0 < 1 < N_STEPS)%nat /\
  exists prev cur : Row,
    simulate_machine 0 quiet_draws !! 0%nat = Some prev /\
    simulate_machine 0 quiet_draws !! 1%nat = Some cur /\
    (health_score cur ==
       Qmax 0 (health_score prev
               - (draw_base_wear_rate quiet_draws
                  + stress_spec (temp_c cur) (vibration_ms2 cur) (load_pct cur))))%Q.
Proof.
  assert (H : (0 < 1 < N_STEPS)%nat) by (pose proof one_lt_N_STEPS; lia).
  split; [exact H|].
  exact (proj1 (health_score_recurrence 0 quiet_draws 1 H)).
Defined.

Lemma health_column machine d :
  health_score <$> simulate_machine machine d = health_score_arr d.
Proof.
  apply list_eq. intros t. rewrite list_lookup_fmap.
  destruct (decide (t < N_STEPS)%nat) as [Ht|Ht].
  - rewrite simulate_machine_lookup by exact Ht.
    unfold row_at. cbn [fmap option_fmap option_map health_score].
    symmetry. apply list_lookup_lookup_total_lt.
    unfold health_score_arr. rewrite length_health_loop. exact Ht.
  - rewrite (lookup_ge_None_2 (simulate_machine machine d)) by (rewrite length_simulate_machine; lia).
    symmetry. apply lookup_ge_None_2.
    unfold health_score_arr. rewrite length_health_loop. lia.
Qed.

Lemma health_column_lookup machine d t h :
  (health_score <$> simulate_machine machine d) !! t = Some h ->
  (t < N_STEPS)%nat /\
  h = health_at (draw_base_wear_rate d) (temp_arr d) (vibration_arr d) (load_pct_arr d) t.
Proof.
  rewrite list_lookup_fmap. intros H.
  destruct (simulate_machine machine d !! t) as [r|] eqn:Hr; [|discriminate].
  apply simulate_machine_lookup_inv in Hr as [Ht ->].
  cbn [fmap option_fmap option_map] in H. apply (inj Some) in H. subst h.
  split; [exact Ht|]. apply health_score_row, Ht.
Qed.

(** C3.  For every machine the health-score column starts at exactly 1.0,
    never increases from one row to the next, and all its values lie in
    [0, 1]. *)
Theorem health_score_profile (machine : nat) (d : Draws) :
  wf_draws d ->
  let hs := health_score <$> simulate_machine machine d in
  length hs = N_STEPS /\
  hs !! 0%nat = Some 1%Q /\
  non_increasing hs /\
  Forall (fun h => (0 <= h <= 1)%Q) hs.
Proof.
  intros Hwf hs. subst hs.
  assert (Hb : (0 <= draw_base_wear_rate d)%Q).
  { destruct (wf_base_wear_rate d Hwf) as [H _]. lra. }
  split; [rewrite length_fmap; apply length_simulate_machine|].
  split.
  { rewrite list_lookup_fmap, simulate_machine_lookup by (pose proof one_lt_N_STEPS; lia).
    cbn [fmap option_fmap option_map].
    rewrite health_score_row by (pose proof one_lt_N_STEPS; lia). reflexivity. }
  split.
  - intros i x y Hx Hy.
    apply health_column_lookup in Hx as [_ ->].
    apply health_column_lookup in Hy as [_ ->].
    apply health_at_succ_le, Hb.
  - apply Forall_lookup. intros i h Hh.
    apply health_column_lookup in Hh as [_ ->]. split.
    + apply health_at_nonneg.
    + apply health_at_le_1, Hb.
Qed.

Lemma health_score_profile_witness :
  wf_draws quiet_draws /\
  let hs := health_score <$> simulate_machine 0 quiet_draws in
  length hs = N_STEPS /\
  hs !! 0%nat = Some 1%Q /\
  non_increasing hs /\
  Forall (fun h => (0 <= h <= 1)%Q) hs.
Proof.
  split; [exact quiet_draws_wf|].
  exact (health_score_profile 0 quiet_draws quiet_draws_wf).
Defined.

(** ** The sensor signals *)

Lemma fmap_lookup_total (f : Q -> Q) (a : list Q) t :
  (t < length a)%nat -> (f <$> a) !!! t = f (a !!! t).
Proof.
  intros Ht. apply list_lookup_total_correct.
  rewrite list_lookup_fmap, (list_lookup_lookup_total_lt a t Ht). reflexivity.
Qed.

Lemma add_scalar_lookup s a t :
  (t < length a)%nat -> add_scalar s a !!! t = (s + a !!! t)%Q.
Proof. apply fmap_lookup_total. Qed.

Lemma add_arrays_lookup (a b : list Q) t :
  (t < length a)%nat -> (t < length b)%nat ->
  add_arrays a b !!! t = (a !!! t + b !!! t)%Q.
Proof.
  intros Ha Hb. apply list_lookup_total_correct. unfold add_arrays.
  rewrite lookup_zip_with, (list_lookup_lookup_total_lt a t Ha),
    (list_lookup_lookup_total_lt b t Hb).
  reflexivity.
Qed.

Lemma length_add_scalar s a : length (add_scalar s a) = length a.
Proof. apply length_fmap. Qed.

Lemma temp_arr_lookup d t :
  length (draw_temp_noise d) = N_STEPS -> (t < N_STEPS)%nat ->
  temp_arr d !!! t
  = (draw_base_temp d + linspace 0 (draw_temp_drift_max d) N_STEPS !!! t
     + draw_temp_noise d !!! t)%Q.
Proof.
  intros Hlen Ht. unfold temp_arr.
  rewrite add_arrays_lookup, add_scalar_lookup;
    rewrite ?length_add_scalar, ?length_linspace; try lia.
  reflexivity.
Qed.

Lemma vibration_arr_lookup d t :
  length (draw_vib_noise d) = N_STEPS -> (t < N_STEPS)%nat ->
  vibration_arr d !!! t
  = (draw_base_vibration d + linspace 0 (draw_vib_drift_max d) N_STEPS !!! t
     + draw_vib_noise d !!! t)%Q.
Proof.
  intros Hlen Ht. unfold vibration_arr.
  rewrite add_arrays_lookup, add_scalar_lookup;
    rewrite ?length_add_scalar, ?length_linspace; try lia.
  reflexivity.
Qed.

Lemma pressure_arr_lookup d t :
  length (draw_pressure_noise d) = N_STEPS -> (t < N_STEPS)%nat ->
  pressure_arr d !!! t = (draw_base_pressure d + draw_pressure_noise d !!! t)%Q.
Proof.
  intros Hlen Ht. unfold pressure_arr. apply add_scalar_lookup. lia.
Qed.

Lemma load_pct_arr_lookup d t :
  length (draw_load_noise d) = N_STEPS -> (t < N_STEPS)%nat ->
  load_pct_arr d !!! t = np_clip (draw_base_load d + draw_load_noise d !!! t) 10 110.
Proof.
  intros Hlen Ht. unfold load_pct_arr.
  rewrite fmap_lookup_total, add_scalar_lookup; rewrite ?length_add_scalar; try lia.
  reflexivity.
Qed.

Lemma rpm_arr_lookup d t :
  length (draw_rpm_noise d) = N_STEPS -> (t < N_STEPS)%nat ->
  rpm_arr d !!! t = np_clip (draw_base_rpm d + draw_rpm_noise d !!! t) 800 2200.
Proof.
  intros Hlen Ht. unfold rpm_arr.
  rewrite fmap_lookup_total, add_scalar_lookup; rewrite ?length_add_scalar; try lia.
  reflexivity.
Qed.

Lemma tuned_draws_wf t x_temp x_vib x_pres : wf_draws (tuned_draws t x_temp x_vib x_pres).
Proof.
  split; try apply length_replicate;
    unfold in_uniform, tuned_draws;
    cbn [draw_base_temp draw_base_vibration draw_base_pressure draw_base_load
         draw_base_rpm draw_temp_drift_max draw_vib_drift_max draw_base_wear_rate];
    lra.
Qed.

Lemma tuned_draws_readings machine t x_temp x_vib x_pres :
  (t < N_STEPS)%nat ->
  let r := row_at machine (tuned_draws t x_temp x_vib x_pres) t in
  (temp_c r == x_temp)%Q /\ (vibration_ms2 r == x_vib)%Q /\ (pressure_psi r == x_pres)%Q.
Proof.
  intros Ht r. subst r. unfold row_at. cbn [temp_c vibration_ms2 pressure_psi].
  pose proof (tuned_draws_wf t x_temp x_vib x_pres) as Hwf.
  rewrite (temp_arr_lookup _ _ (wf_temp_noise _ Hwf) Ht),
    (vibration_arr_lookup _ _ (wf_vib_noise _ Hwf) Ht),
    (pressure_arr_lookup _ _ (wf_pressure_noise _ Hwf) Ht).
  unfold tuned_draws.
  cbn [draw_base_temp draw_base_vibration draw_base_pressure draw_temp_drift_max
       draw_vib_drift_max draw_temp_noise draw_vib_noise draw_pressure_noise].
  rewrite !lookup_total_replicate_2 by exact Ht.
  generalize (linspace 0 10 N_STEPS !!! t) (linspace 0 0.5 N_STEPS !!! t).
  intros drift_t drift_v. repeat split; ring.
Qed.

(** C8.  In every row the load lies in [10, 110] and the rpm in
    [800, 2200].  Temperature and vibration are baseline + drift + noise
    and pressure is baseline + noise with nothing applied on top, so they
    are confined to no range: every triple of values is the reading of
    some admissible draws. *)
Theorem sensor_clamping (machine : nat) (d : Draws) (t : nat) (r : Row) :
  wf_draws d ->
  simulate_machine machine d !! t = Some r ->
  ((10 <= load_pct r <= 110)%Q /\ (800 <= rpm r <= 2200)%Q) /\
  (temp_c r = (draw_base_temp d + linspace 0 (draw_temp_drift_max d) N_STEPS !!! t
               + draw_temp_noise d !!! t)%Q /\
   vibration_ms2 r = (draw_base_vibration d
                      + linspace 0 (draw_vib_drift_max d) N_STEPS !!! t
                      + draw_vib_noise d !!! t)%Q /\
   pressure_psi r = (draw_base_pressure d + draw_pressure_noise d !!! t)%Q) /\
  (forall x_temp x_vib x_pres : Q,
     exists d' r', wf_draws d' /\
       simulate_machine machine d' !! t = Some r' /\
       (temp_c r' == x_temp)%Q /\ (vibration_ms2 r' == x_vib)%Q /\
       (pressure_psi r' == x_pres)%Q).
Proof.
  intros Hwf Hr. apply simulate_machine_lookup_inv in Hr as [Ht ->].
  unfold row_at. cbn [load_pct rpm temp_c vibration_ms2 pressure_psi].
  split; [|split].
  - rewrite (load_pct_arr_lookup _ _ (wf_load_noise _ Hwf) Ht),
      (rpm_arr_lookup _ _ (wf_rpm_noise _ Hwf) Ht).
    split; apply np_clip_bounds; lra.
  - rewrite (temp_arr_lookup _ _ (wf_temp_noise _ Hwf) Ht),
      (vibration_arr_lookup _ _ (wf_vib_noise _ Hwf) Ht),
      (pressure_arr_lookup _ _ (wf_pressure_noise _ Hwf) Ht).
    repeat split.
  - intros x_temp x_vib x_pres.
    exists (tuned_draws t x_temp x_vib x_pres),
           (row_at machine (tuned_draws t x_temp x_vib x_pres) t).
    split; [apply tuned_draws_wf|].
    split; [apply simulate_machine_lookup, Ht|].
    apply tuned_draws_readings, Ht.
Qed.

Lemma sensor_clamping_witness :
  wf_draws quiet_draws /\
  simulate_machine 0 quiet_draws !! 0%nat = Some (row_at 0 quiet_draws 0) /\
  (10 <= load_pct (row_at 0 quiet_draws 0) <= 110)%Q /\
  (800 <= rpm (row_at 0 quiet_draws 0) <= 2200)%Q.
Proof.
  assert (H : simulate_machine 0 quiet_draws !! 0%nat = Some (row_at 0 quiet_draws 0)).
  { apply simulate_machine_lookup. pose proof one_lt_N_STEPS. lia. }
  split; [exact quiet_draws_wf|]. split; [exact H|].
  exact (proj1 (sensor_clamping 0 quiet_draws 0 _ quiet_draws_wf H)).
Defined.

(** ** The concatenated table *)

Lemma insert_row_head r rows :
  HdRel key_rel r rows -> insert_row r rows = r :: rows.
Proof.
  destruct 1 as [|r' rows H]; [reflexivity|].
  unfold key_rel in H. cbn [insert_row]. rewrite H. reflexivity.
Qed.

Lemma sort_values_sorted rows : Sorted key_rel rows -> sort_values rows = rows.
Proof.
  induction 1 as [|r rows Hs IH Hhd]; [reflexivity|].
  unfold sort_values in *. cbn [foldr]. rewrite IH. apply insert_row_head, Hhd.
Qed.

Lemma StronglySorted_fmap_seq {A} (R : relation A) (f : nat -> A) a n :
  (forall i j, (a <= i < j)%nat -> (j < a + n)%nat -> R (f i) (f j)) ->
  StronglySorted R (f <$> seq a n).
Proof.
  revert a. induction n as [|n IH]; intros a Hf; cbn [seq fmap list_fmap].
  - constructor.
  - constructor.
    + apply IH. intros i j Hij Hj. apply Hf; lia.
    + apply Forall_fmap, Forall_seq. intros j Hj. cbn. apply Hf; lia.
Qed.

Lemma StronglySorted_concat_seq {A} (R : relation A) (F : nat -> list A) a n :
  (forall m, StronglySorted R (F m)) ->
  (forall m1 m2 x y, (m1 < m2)%nat -> x ∈ F m1 -> y ∈ F m2 -> R x y) ->
  StronglySorted R (concat (F <$> seq a n)).
Proof.
  intros Hblock Hcross. revert a.
  induction n as [|n IH]; intros a; cbn [seq fmap list_fmap concat].
  - constructor.
  - apply StronglySorted_app_2; [|apply Hblock|apply IH].
    intros x y Hx Hy.
    apply list_elem_of_In, in_concat in Hy as (l & Hl & Hy).
    apply list_elem_of_In, list_elem_of_fmap in Hl as (m & -> & Hm).
    apply elem_of_seq in Hm.
    apply (Hcross a m); [lia|exact Hx|apply list_elem_of_In, Hy].
Qed.

Lemma timestamp_row machine d t :
  (t < N_STEPS)%nat -> timestamp (row_at machine d t) = (10 * t)%nat.
Proof.
  intros Ht. unfold row_at. cbn [timestamp].
  apply list_lookup_total_correct, time_index_lookup, Ht.
Qed.

Lemma elem_of_simulate_machine machine d r :
  r ∈ simulate_machine machine d ->
  exists t, (t < N_STEPS)%nat /\ r = row_at machine d t.
Proof.
  intros Hr. apply list_elem_of_lookup in Hr as [t Ht].
  exists t. apply simulate_machine_lookup_inv, Ht.
Qed.

Lemma machine_id_row machine d t : machine_id (row_at machine d t) = machine.
Proof. reflexivity. Qed.

Lemma simulate_machine_sorted machine d :
  StronglySorted key_rel (simulate_machine machine d).
Proof.
  unfold simulate_machine. apply (StronglySorted_fmap_seq key_rel).
  intros i j Hij Hj. fold (row_at machine d i) (row_at machine d j).
  unfold key_rel, key_le.
  rewrite !machine_id_row, !timestamp_row by lia.
  rewrite Nat.eqb_refl. apply orb_true_iff. right.
  cbn [andb]. apply Nat.leb_le. lia.
Qed.

Lemma all_data_sorted draws : Sorted key_rel (concat (all_data draws)).
Proof.
  apply StronglySorted_Sorted. unfold all_data.
  apply (StronglySorted_concat_seq key_rel (fun m => simulate_machine m (draws m))).
  - intros m. apply simulate_machine_sorted.
  - intros m1 m2 x y Hm Hx Hy.
    apply elem_of_simulate_machine in Hx as (t1 & _ & ->).
    apply elem_of_simulate_machine in Hy as (t2 & _ & ->).
    unfold key_rel, key_le. rewrite !machine_id_row.
    apply orb_true_iff. left. apply Nat.ltb_lt, Hm.
Qed.

(** Sorting the concatenation of the per-machine frames changes nothing:
    it already is in (machine, timestamp) order. *)
Lemma data_concat draws : data draws = concat (all_data draws).
Proof. unfold data. apply sort_values_sorted, all_data_sorted. Qed.

(** ** The failure pass *)

Lemma failed_from_correct last rows :
  loc_assign
    (zip_with (fun l p => Bool.eqb l true && Bool.eqb p false)
       (low_health rows)
       (fillna false (groupby_shift last (machine_id <$> rows) (low_health rows))))
    (replicate (length rows) 0%Z) 1%Z
  = failed_from last rows.
Proof.
  revert last. induction rows as [|r rows IH]; intros last; [reflexivity|].
  unfold loc_assign, low_health, fillna in *.
  cbn [fmap list_fmap groupby_shift zip_with length replicate failed_from].
  rewrite IH. f_equal.
  destruct (ltb (health_score r) HEALTH_THRESHOLD), (default false (last !! machine_id r));
    reflexivity.
Qed.

Lemma failed_failed_from rows : failed rows = failed_from ∅ rows.
Proof. unfold failed, low_health_prev. apply failed_from_correct. Qed.

Lemma failed_from_app last rows1 rows2 :
  failed_from last (rows1 ++ rows2)
  = failed_from last rows1 ++ failed_from (seen_after last rows1) rows2.
Proof.
  revert last. induction rows1 as [|r rows1 IH]; intros last; [reflexivity|].
  cbn [app failed_from]. rewrite IH. reflexivity.
Qed.

Lemma length_failed_from last rows : length (failed_from last rows) = length rows.
Proof.
  revert last. induction rows as [|r rows IH]; intros last; [reflexivity|].
  cbn [failed_from length]. rewrite IH. reflexivity.
Qed.

Lemma seen_after_other last rows k :
  Forall (fun r => machine_id r <> k) rows ->
  seen_after last rows !! k = last !! k.
Proof.
  intros H. revert last. induction H as [|r rows Hr _ IH]; intros last; [reflexivity|].
  unfold seen_after in *. cbn [foldl]. rewrite IH. apply lookup_insert_ne, Hr.
Qed.

(** On the rows of one machine the pass compares each row with the one
    before it. *)
Lemma failed_from_block last m rows :
  Forall (fun r => machine_id r = m) rows ->
  failed_from last rows = crossings (default false (last !! m)) (low_health rows).
Proof.
  intros H. revert last. induction H as [|r rows Hr _ IH]; intros last; [reflexivity|].
  unfold low_health in *. cbn [failed_from fmap list_fmap crossings].
  rewrite IH, Hr, lookup_insert_eq. reflexivity.
Qed.

Lemma failed_from_blocks (F : nat -> list Row) :
  (forall m, Forall (fun r => machine_id r = m) (F m)) ->
  forall n a last,
    (forall k, (a <= k)%nat -> last !! k = None) ->
    failed_from last (concat (F <$> seq a n))
    = concat ((fun m => crossings false (low_health (F m))) <$> seq a n).
Proof.
  intros HF. induction n as [|n IH]; intros a last Hlast; [reflexivity|].
  cbn [seq fmap list_fmap concat].
  rewrite failed_from_app, (failed_from_block last a (F a) (HF a)), Hlast by lia.
  f_equal. apply IH. intros k Hk.
  rewrite seen_after_other; [apply Hlast; lia|].
  eapply Forall_impl; [apply HF|]. cbn. intros r ->. lia.
Qed.

Lemma simulate_machine_ids machine d :
  Forall (fun r => machine_id r = machine) (simulate_machine machine d).
Proof.
  apply Forall_forall. intros r Hr.
  apply elem_of_simulate_machine in Hr as (t & _ & ->). reflexivity.
Qed.

(** The column [failed] of the whole table, machine by machine. *)
Lemma failed_data draws :
  failed (data draws)
  = concat ((fun m => crossings false (low_health (simulate_machine m (draws m))))
              <$> seq 0 N_MACHINES).
Proof.
  rewrite failed_failed_from, data_concat. unfold all_data.
  apply (failed_from_blocks (fun m => simulate_machine m (draws m))).
  - intros m. apply simulate_machine_ids.
  - intros k _. apply lookup_empty.
Qed.

(** ** The output table, machine by machine *)

Lemma length_crossings prev lows : length (crossings prev lows) = length lows.
Proof.
  revert prev. induction lows as [|l lows IH]; intros prev; [reflexivity|].
  cbn [crossings length]. rewrite IH. reflexivity.
Qed.

Lemma length_low_health rows : length (low_health rows) = length rows.
Proof. apply length_fmap. Qed.

Lemma zip_concat_seq {A B} (F : nat -> list A) (G : nat -> list B) n a :
  (forall m, length (F m) = length (G m)) ->
  zip (concat (F <$> seq a n)) (concat (G <$> seq a n))
  = concat ((fun m => zip (F m) (G m)) <$> seq a n).
Proof.
  intros Hlen. revert a. induction n as [|n IH]; intros a; [reflexivity|].
  cbn [seq fmap list_fmap concat].
  rewrite zip_with_app by apply Hlen. rewrite IH. reflexivity.
Qed.

Lemma output_blocks draws :
  output draws = concat (machine_block draws <$> seq 0 N_MACHINES).
Proof.
  unfold output. rewrite failed_data, data_concat. unfold all_data.
  apply (zip_concat_seq (fun m => simulate_machine m (draws m))
           (fun m => crossings false (low_health (simulate_machine m (draws m))))).
  intros m. rewrite length_crossings, length_low_health. reflexivity.
Qed.

Lemma filter_all {A} (P : A -> Prop) `{forall x, Decision (P x)} (l : list A) :
  Forall P l -> filter P l = l.
Proof.
  induction 1 as [|x l Hx _ IH]; [reflexivity|].
  rewrite filter_cons_True by exact Hx. rewrite IH. reflexivity.
Qed.

Lemma filter_none {A} (P : A -> Prop) `{forall x, Decision (P x)} (l : list A) :
  Forall (fun x => ~ P x) l -> filter P l = [].
Proof.
  induction 1 as [|x l Hx _ IH]; [reflexivity|].
  rewrite filter_cons_False by exact Hx. exact IH.
Qed.

Lemma Forall_zip_fst {A B} (P : A -> Prop) (l : list A) (k : list B) :
  Forall P l -> Forall (fun p => P p.1) (zip l k).
Proof.
  intros H. revert k. induction H as [|x l Hx _ IH]; intros [|y k]; constructor; auto.
Qed.

Lemma machine_block_ids draws m :
  Forall (fun r : Row * Z => machine_id r.1 = m) (machine_block draws m).
Proof.
  unfold machine_block.
  apply (Forall_zip_fst (fun r => machine_id r = m)), simulate_machine_ids.
Qed.

Lemma machine_rows_blocks (B : nat -> list (Row * Z)) m n a :
  (forall k, Forall (fun r : Row * Z => machine_id r.1 = k) (B k)) ->
  machine_rows m (concat (B <$> seq a n))
  = if decide (a <= m < a + n)%nat then B m else [].
Proof.
  intros HB. revert a. induction n as [|n IH]; intros a.
  - cbn [seq fmap list_fmap concat].
    destruct (decide (a <= m < a + 0)%nat); [lia|reflexivity].
  - cbn [seq fmap list_fmap concat]. unfold machine_rows in *.
    rewrite filter_app, IH.
    destruct (decide (a = m)) as [->|Hne].
    + rewrite filter_all by apply HB.
      destruct (decide (S m <= m < S m + n)%nat); [lia|].
      destruct (decide (m <= m < m + S n)%nat); [|lia].
      apply app_nil_r.
    + rewrite filter_none.
      * destruct (decide (S a <= m < S a + n)%nat), (decide (a <= m < a + S n)%nat);
          try lia; reflexivity.
      * eapply Forall_impl; [apply HB|]. cbn. congruence.
Qed.

(** The rows of machine [m] in the output are its own frame, in time
    order, each with its failure flag. *)
Lemma machine_rows_output draws m :
  (m < N_MACHINES)%nat -> machine_rows m (output draws) = machine_block draws m.
Proof.
  intros Hm. rewrite output_blocks.
  rewrite (machine_rows_blocks (machine_block draws)) by apply machine_block_ids.
  destruct (decide (0 <= m < 0 + N_MACHINES)%nat); [reflexivity|lia].
Qed.

Lemma crossings_lookup prev lows t l :
  lows !! t = Some l ->
  crossings prev lows !! t
  = Some (if l && negb (match t with O => prev | S t' => default false (lows !! t') end)
          then 1%Z else 0%Z).
Proof.
  revert prev t. induction lows as [|l0 lows IH]; intros prev t Hl; [discriminate|].
  destruct t as [|t]; simpl in *.
  - injection Hl as ->. reflexivity.
  - rewrite (IH l0 t Hl). destruct t as [|t]; reflexivity.
Qed.

(** ** Which rows are failure events *)

Lemma low_health_lookup rows t r :
  rows !! t = Some r ->
  low_health rows !! t = Some (ltb (health_score r) HEALTH_THRESHOLD).
Proof. intros H. unfold low_health. rewrite list_lookup_fmap, H. reflexivity. Qed.

Lemma block_lookup rows t r :
  rows !! t = Some r ->
  zip rows (crossings false (low_health rows)) !! t
  = Some (r, if ltb (health_score r) HEALTH_THRESHOLD
                && negb (match t with
                         | O => false
                         | S t' => default false (low_health rows !! t')
                         end)
             then 1%Z else 0%Z).
Proof.
  intros H. rewrite lookup_zip_with, H.
  rewrite (crossings_lookup false _ t _ (low_health_lookup rows t r H)).
  reflexivity.
Qed.

Lemma block_lookup_inv rows t r f :
  zip rows (crossings false (low_health rows)) !! t = Some (r, f) ->
  rows !! t = Some r.
Proof.
  intros H. apply lookup_zip_with_Some in H as (x & y & Heq & Hx & _).
  injection Heq as -> ->. exact Hx.
Qed.

(** The rule on the rows of one machine. *)
Lemma block_failed_iff rows t r f :
  zip rows (crossings false (low_health rows)) !! t = Some (r, f) ->
  (f = 1%Z \/ f = 0%Z) /\
  (f = 1%Z <->
   (health_score r < 0.3)%Q /\
   (t = 0%nat \/
    exists r' f', zip rows (crossings false (low_health rows)) !! (t - 1)%nat = Some (r', f')
                  /\ (0.3 <= health_score r')%Q)).
Proof.
  intros H. pose proof (block_lookup_inv _ _ _ _ H) as Hr.
  rewrite (block_lookup rows t r Hr) in H. injection H as <-.
  destruct t as [|t].
  - destruct (ltb (health_score r) HEALTH_THRESHOLD) eqn:E; cbn [andb negb].
    + apply ltb_lt in E. split; [left; reflexivity|]. split; [intros _|reflexivity].
      split; [exact E|left; reflexivity].
    + apply ltb_ge in E. split; [right; reflexivity|]. split; [discriminate|].
      intros [Hlow _]. unfold HEALTH_THRESHOLD in E. lra.
  - replace (S t - 1)%nat with t by lia.
    destruct (rows !! t) as [r'|] eqn:Hr'.
    2:{ apply lookup_ge_None in Hr'. apply lookup_lt_Some in Hr. lia. }
    rewrite (low_health_lookup rows t r' Hr'). cbn [default].
    rewrite (block_lookup rows t r' Hr').
    destruct (ltb (health_score r) HEALTH_THRESHOLD) eqn:E,
             (ltb (health_score r') HEALTH_THRESHOLD) eqn:E'; cbn [andb negb].
    + apply ltb_lt in E, E'. split; [right; reflexivity|]. split; [discriminate|].
      intros [_ [H0|(r2 & f2 & Heq & Hge)]]; [discriminate|].
      injection Heq as <- _. unfold HEALTH_THRESHOLD in E'. lra.
    + apply ltb_lt in E. apply ltb_ge in E'.
      split; [left; reflexivity|]. split; [intros _|reflexivity].
      split; [exact E|]. right. eexists _, _. split; [reflexivity|exact E'].
    + apply ltb_ge in E. split; [right; reflexivity|]. split; [discriminate|].
      intros [Hlow _]. unfold HEALTH_THRESHOLD in E. lra.
    + apply ltb_ge in E. split; [right; reflexivity|]. split; [discriminate|].
      intros [Hlow _]. unfold HEALTH_THRESHOLD in E. lra.
Qed.

Lemma machine_block_eq draws m :
  machine_block draws m
  = zip (simulate_machine m (draws m))
        (crossings false (low_health (simulate_machine m (draws m)))).
Proof. reflexivity. Qed.

Lemma length_machine_block draws m : length (machine_block draws m) = N_STEPS.
Proof.
  rewrite machine_block_eq.
  rewrite length_zip_with_l_eq; [apply length_simulate_machine|].
  rewrite length_crossings, length_low_health. reflexivity.
Qed.

Lemma machine_block_row draws m t r f :
  machine_block draws m !! t = Some (r, f) -> r = row_at m (draws m) t.
Proof.
  intros H. rewrite machine_block_eq in H.
  apply block_lookup_inv in H.
  apply simulate_machine_lookup_inv in H as [_ H]. exact H.
Qed.

Lemma output_by_machine draws :
  output draws
  = concat ((fun k => machine_rows k (output draws)) <$> seq 0 N_MACHINES).
Proof.
  rewrite <- (list_fmap_ext (machine_block draws)
                (fun k => machine_rows k (output draws)) (seq 0 N_MACHINES)).
  - apply output_blocks.
  - intros i k Hk. apply lookup_seq in Hk as [-> Hi].
    symmetry. apply machine_rows_output. lia.
Qed.

(** C2.  The output table is the sequence of the per-machine blocks, each
    in timestamp order.  In the block of a machine, row [t] has failed = 1
    exactly when its health score is below 0.3 and either it is the
    machine's first row or the row before it has a health score of at
    least 0.3; every other row has failed = 0. *)
Theorem failed_rows_exact (draws : nat -> Draws) (m t : nat) :
  (m < N_MACHINES)%nat -> (t < N_STEPS)%nat ->
  let rows := machine_rows m (output draws) in
  output draws
  = concat ((fun k => machine_rows k (output draws)) <$> seq 0 N_MACHINES) /\
  length rows = N_STEPS /\
  exists r f,
    rows !! t = Some (r, f) /\
    machine_id r = m /\ timestamp r = (10 * t)%nat /\
    (f = 1%Z \/ f = 0%Z) /\
    (f = 1%Z <->
     (health_score r < 0.3)%Q /\
     (t = 0%nat \/
      exists r' f', rows !! (t - 1)%nat = Some (r', f') /\ (0.3 <= health_score r')%Q)).
Proof.
  intros Hm Ht rows. subst rows.
  split; [apply output_by_machine|].
  rewrite (machine_rows_output draws m Hm).
  split; [apply length_machine_block|].
  destruct (machine_block draws m !! t) as [[r f]|] eqn:Hrow.
  2:{ apply lookup_ge_None in Hrow. rewrite length_machine_block in Hrow. lia. }
  exists r, f. split; [reflexivity|].
  pose proof (machine_block_row _ _ _ _ _ Hrow) as Hr.
  split; [rewrite Hr; apply machine_id_row|].
  split; [rewrite Hr; apply timestamp_row, Ht|].
  rewrite machine_block_eq in Hrow |- *.
  exact (block_failed_iff (simulate_machine m (draws m)) t r f Hrow).
Qed.

Lemma failed_rows_exact_witness :
  (0 < N_MACHINES)%nat /\ (0 < N_STEPS)%nat /\
  length (machine_rows 0 (output (fun _ => quiet_draws))) = N_STEPS.
Proof.
  assert (Hm : (0 < N_MACHINES)%nat) by (unfold N_MACHINES; lia).
  assert (Ht : (0 < N_STEPS)%nat) by (pose proof one_lt_N_STEPS; lia).
  split; [exact Hm|]. split; [exact Ht|].
  exact (proj1 (proj2 (failed_rows_exact (fun _ => quiet_draws) 0 0 Hm Ht))).
Defined.

(** ** Counting failure events *)

Lemma crossings_after_low lows :
  Forall (fun b : bool => b = true) lows ->
  filter (fun f : Z => f = 1%Z) (crossings true lows) = [].
Proof.
  induction 1 as [|b lows -> _ IH]; [reflexivity|].
  cbn [crossings andb negb]. rewrite filter_cons_False by discriminate. exact IH.
Qed.

Lemma crossings_count lows :
  stays_low lows ->
  (length (filter (fun f : Z => f = 1%Z) (crossings false lows)) <= 1)%nat /\
  (Exists (fun b : bool => b = true) lows ->
   length (filter (fun f : Z => f = 1%Z) (crossings false lows)) = 1%nat).
Proof.
  unfold stays_low. induction 1 as [|b lows Hs IH Hb].
  - split; [cbn; lia|]. intros H. inversion H.
  - destruct b; cbn [crossings andb negb].
    + rewrite filter_cons_True by reflexivity.
      rewrite crossings_after_low.
      * cbn. split; [lia|reflexivity].
      * eapply Forall_impl; [exact Hb|]. cbn. auto.
    + rewrite filter_cons_False by discriminate.
      destruct IH as [IH1 IH2]. split; [exact IH1|].
      intros H. apply IH2. inversion H; [discriminate|assumption].
Qed.

Lemma StronglySorted_lookup_2 {A} (R : relation A) (l : list A) :
  (forall i j x y, (i < j)%nat -> l !! i = Some x -> l !! j = Some y -> R x y) ->
  StronglySorted R l.
Proof.
  induction l as [|a l IH]; intros H; constructor.
  - apply IH. intros i j x y Hij Hx Hy. apply (H (S i) (S j)); [lia|exact Hx|exact Hy].
  - apply Forall_lookup. intros j y Hy. apply (H 0%nat (S j)); [lia|reflexivity|exact Hy].
Qed.

Lemma non_increasing_le hs i j x y :
  non_increasing hs -> (i <= j)%nat ->
  hs !! i = Some x -> hs !! j = Some y -> (y <= x)%Q.
Proof.
  intros Hmono Hij Hx. revert y. induction Hij as [|j Hij IH]; intros y Hy.
  - rewrite Hx in Hy. injection Hy as ->. apply Qle_refl.
  - destruct (hs !! j) as [z|] eqn:Hz.
    2:{ apply lookup_ge_None in Hz. apply lookup_lt_Some in Hy. lia. }
    apply Qle_trans with z; [apply (Hmono j z y Hz Hy)|apply IH; reflexivity].
Qed.

Lemma non_increasing_never_recovers hs : non_increasing hs -> never_recovers hs.
Proof.
  intros Hmono i j x y Hij Hx Hy Hlow. unfold is_low in *.
  pose proof (non_increasing_le hs i j x y Hmono Hij Hx Hy). lra.
Qed.

Lemma never_recovers_stays_low rows :
  never_recovers (health_score <$> rows) -> stays_low (low_health rows).
Proof.
  intros H. apply StronglySorted_lookup_2.
  intros i j a b Hij Ha Hb Hat. subst a.
  unfold low_health in Ha, Hb. rewrite list_lookup_fmap in Ha, Hb.
  destruct (rows !! i) as [ri|] eqn:Hi; [|discriminate].
  destruct (rows !! j) as [rj|] eqn:Hj; [|discriminate].
  cbn in Ha, Hb. injection Ha as Ha. injection Hb as <-.
  apply ltb_lt. apply ltb_lt in Ha.
  apply (H i j (health_score ri) (health_score rj)); [lia| | |exact Ha];
    rewrite list_lookup_fmap; [rewrite Hi|rewrite Hj]; reflexivity.
Qed.

Lemma exists_low_flag rows :
  Exists (fun r => is_low (health_score r)) rows ->
  Exists (fun b : bool => b = true) (low_health rows).
Proof.
  unfold low_health. intros H. apply Exists_fmap.
  eapply Exists_impl; [exact H|]. cbn. intros r Hr. apply ltb_lt, Hr.
Qed.

Lemma failure_events_zip (rows : list Row) (fs : list Z) :
  length rows = length fs ->
  failure_events (zip rows fs) = length (filter (fun f : Z => f = 1%Z) fs).
Proof.
  unfold failure_events. revert fs.
  induction rows as [|r rows IH]; intros [|f fs] Hlen; try discriminate; [reflexivity|].
  cbn [zip_with]. destruct (decide (f = 1%Z)) as [Hf|Hf].
  - rewrite !filter_cons_True by exact Hf. cbn [length]. rewrite IH by (cbn in Hlen; lia).
    reflexivity.
  - rewrite !filter_cons_False by exact Hf. apply IH. cbn in Hlen; lia.
Qed.

(** The pass on a table that holds the rows of one machine only. *)
Lemma failed_single_machine rows m :
  Forall (fun r => machine_id r = m) rows ->
  failed rows = crossings false (low_health rows).
Proof.
  intros H. rewrite failed_failed_from, (failed_from_block ∅ m rows H), lookup_empty.
  reflexivity.
Qed.

Lemma health_column_non_increasing machine d :
  (0 <= draw_base_wear_rate d)%Q ->
  non_increasing (health_score <$> simulate_machine machine d).
Proof.
  intros Hb i x y Hx Hy.
  apply health_column_lookup in Hx as [_ ->].
  apply health_column_lookup in Hy as [_ ->].
  apply health_at_succ_le, Hb.
Qed.

Lemma steps_value : Z.of_nat (N_STEPS - 1) = 8640%Z.
Proof. pose proof N_STEPS_value. lia. Qed.

(** With a base wear rate of at least 0.00015 per step, the 8640 steps of
    the grid wear any machine down completely. *)
Lemma health_at_end base_wear_rate temp vibration load_pct :
  (0.00015 <= base_wear_rate)%Q ->
  (health_at base_wear_rate temp vibration load_pct (N_STEPS - 1) <= 0)%Q.
Proof.
  intros Hb.
  pose proof (health_at_linear base_wear_rate temp vibration load_pct (N_STEPS - 1)) as Hlin.
  rewrite steps_value in Hlin. change (inject_Z 8640) with 8640%Q in Hlin.
  revert Hlin.
  generalize (health_at base_wear_rate temp vibration load_pct (N_STEPS - 1)).
  intros h Hlin.
  destruct (Qlt_le_dec 0 h) as [Hpos|Hle]; [|exact Hle].
  assert (H0 : (0 <= base_wear_rate)%Q) by lra.
  specialize (Hlin H0 Hpos). lra.
Qed.

Lemma last_row_low machine d :
  wf_draws d -> is_low (health_score (row_at machine d (N_STEPS - 1))).
Proof.
  intros Hwf. rewrite health_score_row by (pose proof one_lt_N_STEPS; lia).
  destruct (wf_base_wear_rate d Hwf) as [Hb _].
  pose proof (health_at_end (draw_base_wear_rate d) (temp_arr d) (vibration_arr d)
                (load_pct_arr d) Hb) as H.
  revert H.
  generalize (health_at (draw_base_wear_rate d) (temp_arr d) (vibration_arr d)
                (load_pct_arr d) (N_STEPS - 1)).
  intros h H. unfold is_low, HEALTH_THRESHOLD. lra.
Qed.

Lemma simulate_machine_reaches_low machine d :
  wf_draws d ->
  Exists (fun r => is_low (health_score r)) (simulate_machine machine d).
Proof.
  intros Hwf. apply Exists_exists. exists (row_at machine d (N_STEPS - 1)).
  split; [|apply last_row_low, Hwf].
  apply list_elem_of_lookup. exists (N_STEPS - 1)%nat.
  apply simulate_machine_lookup. pose proof one_lt_N_STEPS. lia.
Qed.

Lemma machine_block_health draws m :
  (machine_block draws m).*1 = simulate_machine m (draws m).
Proof.
  rewrite machine_block_eq. apply fst_zip.
  rewrite length_crossings, length_low_health. reflexivity.
Qed.

Lemma machine_block_events draws m :
  wf_draws (draws m) -> failure_events (machine_block draws m) = 1%nat.
Proof.
  intros Hwf. rewrite machine_block_eq.
  rewrite failure_events_zip by (rewrite length_crossings, length_low_health; reflexivity).
  apply crossings_count.
  - apply never_recovers_stays_low, non_increasing_never_recovers,
      health_column_non_increasing.
    destruct (wf_base_wear_rate _ Hwf) as [Hb _]. lra.
  - apply exists_low_flag, simulate_machine_reaches_low, Hwf.
Qed.

(** C7.  On the rows of one machine whose health score never returns from
    below the threshold (in particular on every non-increasing series) the
    pass marks at most one row, and exactly one if the series gets below
    the threshold at all.  Every simulated machine has a non-increasing
    series that ends below the threshold, so its block of the output holds
    exactly one row with failed = 1. *)
Theorem single_failure_event :
  (forall hs, non_increasing hs -> never_recovers hs) /\
  (forall (rows : list Row) (m : nat),
     Forall (fun r => machine_id r = m) rows ->
     never_recovers (health_score <$> rows) ->
     (length (filter (fun f : Z => f = 1%Z) (failed rows)) <= 1)%nat /\
     (Exists (fun r => (health_score r < 0.3)%Q) rows ->
      length (filter (fun f : Z => f = 1%Z) (failed rows)) = 1%nat)) /\
  (forall (draws : nat -> Draws) (m : nat),
     wf_draws (draws m) -> (m < N_MACHINES)%nat ->
     non_increasing (health_score <$> (machine_rows m (output draws)).*1) /\
     failure_events (machine_rows m (output draws)) = 1%nat).
Proof.
  split; [exact non_increasing_never_recovers|]. split.
  - intros rows m Hid Hnr. rewrite (failed_single_machine rows m Hid).
    pose proof (crossings_count _ (never_recovers_stays_low rows Hnr)) as [Hle Hex].
    split; [exact Hle|]. intros Hlow. apply Hex, exists_low_flag, Hlow.
  - intros draws m Hwf Hm. rewrite (machine_rows_output draws m Hm). split.
    + rewrite machine_block_health. apply health_column_non_increasing.
      destruct (wf_base_wear_rate _ Hwf) as [Hb _]. lra.
    + apply machine_block_events, Hwf.
Qed.

Lemma single_failure_event_witness :
  wf_draws quiet_draws /\ (0 < N_MACHINES)%nat /\
  failure_events (machine_rows 0 (output (fun _ => quiet_draws))) = 1%nat.
Proof.
  assert (Hm : (0 < N_MACHINES)%nat) by (unfold N_MACHINES; lia).
  split; [exact quiet_draws_wf|]. split; [exact Hm|].
  exact (proj2 (proj2 (proj2 single_failure_event) (fun _ => quiet_draws) 0%nat
                  quiet_draws_wf Hm)).
Defined.
Import Api.

(** ** The prediction endpoint *)

Section Comprehension.
Context {A B : Type} (f : A -> result B).

Lemma comprehension_ok (g : A -> B) l :
  (forall a, a ∈ l -> f a = Ok (g a)) -> comprehension f l = Ok (g <$> l).
Proof.
  induction l as [|a l IH]; intros H; [reflexivity|].
  cbn [comprehension]. rewrite (H a) by (left). cbn [bind].
  rewrite IH by (intros b Hb; apply H; right; exact Hb). reflexivity.
Qed.

Lemma comprehension_Ok_inv l xs :
  comprehension f l = Ok xs ->
  length xs = length l /\
  forall i a, l !! i = Some a -> exists b, f a = Ok b /\ xs !! i = Some b.
Proof.
  revert xs. induction l as [|a l IH]; intros xs H.
  - injection H as <-. split; [reflexivity|]. intros i a0 Hi. discriminate.
  - cbn [comprehension] in H. destruct (f a) as [b|e] eqn:Hb; [|discriminate].
    cbn [bind] in H. destruct (comprehension f l) as [bs|e]; [|discriminate].
    cbn [bind] in H. injection H as <-.
    destruct (IH bs eq_refl) as [Hlen Hlook]. split; [cbn; lia|].
    intros [|i] a0 Hi; cbn in Hi.
    + injection Hi as <-. exists b. split; [exact Hb|reflexivity].
    + apply Hlook, Hi.
Qed.

Lemma comprehension_Raise_inv l e :
  comprehension f l = Raise e -> exists a, a ∈ l /\ f a = Raise e.
Proof.
  induction l as [|a l IH]; intros H; [discriminate|].
  cbn [comprehension] in H. destruct (f a) as [b|e'] eqn:Hb; cbn [bind] in H.
  - destruct (comprehension f l) as [bs|e']; cbn [bind] in H; [discriminate|].
    injection H as ->. destruct (IH eq_refl) as (a' & Ha' & Hf).
    exists a'. split; [right; exact Ha'|exact Hf].
  - injection H as ->. exists a. split; [left|exact Hb].
Qed.

Lemma comprehension_Raise l a e :
  a ∈ l -> f a = Raise e -> exists e', comprehension f l = Raise e'.
Proof.
  intros Ha Hf. destruct (comprehension f l) as [xs|e'] eqn:Hc; [|eauto].
  apply comprehension_Ok_inv in Hc as [_ Hlook].
  apply list_elem_of_lookup in Ha as [i Hi].
  destruct (Hlook i a Hi) as (b & Hb & _). congruence.
Qed.

Lemma comprehension_ext (f' : A -> result B) l :
  (forall a, a ∈ l -> f a = f' a) -> comprehension f l = comprehension f' l.
Proof.
  induction l as [|a l IH]; intros H; [reflexivity|].
  cbn [comprehension]. rewrite (H a) by (left).
  rewrite IH by (intros b Hb; apply H; right; exact Hb). reflexivity.
Qed.

End Comprehension.
Local Open Scope string_scope.

Section Endpoint.
Variable str_to_float : string -> option Q.
Variable artifact : Artifact.

Lemma build_x_eq payload :
  build_x str_to_float artifact payload
  = comprehension
      (fun col => py_float str_to_float (default (JFloat 0.0) (features payload !! col)))
      (feature_cols artifact).
Proof. reflexivity. Qed.

Lemma predict_eq payload :
  predict_failure_24h str_to_float artifact payload
  = match build_x str_to_float artifact payload with
    | Ok x =>
        Ok [("failure_probability_24h", JFloat (py_round (model artifact x) 3));
            ("recommendation", JStr (recommend (model artifact x)))]
    | Raise e => Raise e
    end.
Proof.
  unfold predict_failure_24h.
  destruct (build_x str_to_float artifact payload); reflexivity.
Qed.

Lemma py_float_coerced v :
  py_float str_to_float v
  = match coerced str_to_float v with
    | Some x => Ok x
    | None => Raise (match v with
                     | JStr _ => ValueError
                     | JInt _ => OverflowError
                     | _ => TypeError
                     end)
    end.
Proof.
  destruct v as [| [|] | z | | | |]; try reflexivity.
  cbn [py_float coerced]. unfold int_to_float.
  destruct (2 ^ 1024 <=? Z.abs (nearest_float z))%Z; reflexivity.
Qed.

Lemma int_to_float_exact z :
  exact_int z = true -> int_to_float z = Ok (inject_Z z).
Proof.
  unfold exact_int, int_to_float. intros H.
  apply andb_true_iff in H as [H1 H2].
  apply Z.eqb_eq in H1. apply Z.ltb_lt in H2. rewrite H1.
  destruct (Z.leb_spec (2 ^ 1024) (Z.abs z)) as [Hle|_]; [lia|reflexivity].
Qed.

Lemma py_float_numeric v x :
  numeric_value v = Some x -> py_float str_to_float v = Ok x.
Proof.
  destruct v as [| | z | | | |]; try discriminate; cbn [numeric_value py_float].
  - destruct (exact_int z) eqn:E; [|discriminate].
    intros H. injection H as <-. apply int_to_float_exact, E.
  - congruence.
Qed.

(** Keys outside the stored feature names are never read. *)
Lemma build_x_insert_extra payload k v :
  k ∉ feature_cols artifact ->
  build_x str_to_float artifact {| features := <[k := v]> (features payload) |}
  = build_x str_to_float artifact payload.
Proof.
  intros Hk. rewrite !build_x_eq. apply comprehension_ext.
  intros col Hcol. cbn [features].
  rewrite lookup_insert_ne by (intros ->; contradiction). reflexivity.
Qed.

Lemma build_x_delete_extra payload k :
  k ∉ feature_cols artifact ->
  build_x str_to_float artifact {| features := delete k (features payload) |}
  = build_x str_to_float artifact payload.
Proof.
  intros Hk. rewrite !build_x_eq. apply comprehension_ext.
  intros col Hcol. cbn [features].
  rewrite lookup_delete_ne by (intros ->; contradiction). reflexivity.
Qed.

Lemma build_x_numeric payload :
  (forall col v, col ∈ feature_cols artifact -> features payload !! col = Some v ->
                 is_Some (numeric_value v)) ->
  build_x str_to_float artifact payload = Ok (expected_x artifact payload).
Proof.
  intros Hnum. rewrite build_x_eq. unfold expected_x.
  apply comprehension_ok. intros col Hcol.
  destruct (features payload !! col) as [v|] eqn:Hv; cbn [default mbind option_bind].
  - destruct (Hnum col v Hcol Hv) as [x Hx]. rewrite Hx. cbn [default].
    apply py_float_numeric, Hx.
  - reflexivity.
Qed.

Lemma build_x_failure payload e :
  build_x str_to_float artifact payload = Raise e ->
  exists col v, col ∈ feature_cols artifact /\ features payload !! col = Some v /\
                py_float str_to_float v = Raise e.
Proof.
  rewrite build_x_eq. intros H.
  apply comprehension_Raise_inv in H as (col & Hcol & Hf).
  destruct (features payload !! col) as [v|] eqn:Hv; cbn [default] in Hf.
  - exists col, v. auto.
  - discriminate.
Qed.

Lemma build_x_fails payload col v e :
  col ∈ feature_cols artifact -> features payload !! col = Some v ->
  py_float str_to_float v = Raise e ->
  exists e', build_x str_to_float artifact payload = Raise e'.
Proof.
  intros Hcol Hv Hf. rewrite build_x_eq.
  apply (comprehension_Raise _ _ col e Hcol). rewrite Hv. exact Hf.
Qed.

End Endpoint.

(** C4.  For every mapping from names to numbers (floats, and integers
    that a float holds exactly) the input row has one entry per stored
    feature name, in the stored order: the number given for the name, or
    0.0 when the mapping has no such name; names outside the stored list
    are ignored, whatever they hold.  The empty mapping
    against the features [f1; f2] gives the row [0.0; 0.0] and a response
    with both fields. *)
Theorem feature_vector_order (str_to_float : string -> option Q)
    (artifact : Artifact) (payload : FeatureVector) :
  (forall col v, col ∈ feature_cols artifact -> features payload !! col = Some v ->
                 is_Some (numeric_value v)) ->
  build_x str_to_float artifact payload = Ok (expected_x artifact payload) /\
  length (expected_x artifact payload) = length (feature_cols artifact) /\
  (forall i col, feature_cols artifact !! i = Some col ->
     expected_x artifact payload !! i
     = Some (match features payload !! col with
             | Some v => default 0.0%Q (numeric_value v)
             | None => 0.0%Q
             end)) /\
  (forall k v, k ∉ feature_cols artifact ->
     build_x str_to_float artifact {| features := <[k := v]> (features payload) |}
     = build_x str_to_float artifact payload) /\
  predict_failure_24h str_to_float artifact payload
  = Ok [("failure_probability_24h",
         JFloat (py_round (model artifact (expected_x artifact payload)) 3));
        ("recommendation",
         JStr (recommend (model artifact (expected_x artifact payload))))] /\
  (forall (m : list Q -> Q) (f1 f2 : string),
     let a := {| model := m; feature_cols := [f1; f2] |} in
     build_x str_to_float a {| features := ∅ |} = Ok [0.0; 0.0]%Q /\
     exists p r,
       predict_failure_24h str_to_float a {| features := ∅ |}
       = Ok [("failure_probability_24h", JFloat p); ("recommendation", JStr r)]).
Proof.
  intros Hnum.
  pose proof (build_x_numeric str_to_float artifact payload Hnum) as Hx.
  split; [exact Hx|]. split; [apply length_fmap|]. split.
  { intros i col Hi. unfold expected_x. rewrite list_lookup_fmap, Hi.
    cbn [fmap option_fmap option_map]. f_equal.
    destruct (features payload !! col); reflexivity. }
  split; [intros k v Hk; apply build_x_insert_extra, Hk|]. split.
  { rewrite predict_eq, Hx. reflexivity. }
  intros m f1 f2 a.
  assert (Ha : build_x str_to_float a {| features := ∅ |} = Ok [0.0; 0.0]%Q).
  { rewrite build_x_eq. subst a. cbn [feature_cols features comprehension].
    rewrite !lookup_empty. reflexivity. }
  split; [exact Ha|]. rewrite predict_eq, Ha. eauto.
Qed.

Lemma feature_vector_order_witness :
  (forall col v, col ∈ feature_cols two_features ->
                 features numeric_request !! col = Some v ->
                 is_Some (numeric_value v)) /\
  build_x decimal_literal two_features numeric_request = Ok [0.5; 2]%Q.
Proof.
  assert (H : forall col v, col ∈ feature_cols two_features ->
                features numeric_request !! col = Some v -> is_Some (numeric_value v)).
  { intros col v Hcol Hv. cbn in Hcol.
    apply elem_of_cons in Hcol as [->|Hcol];
      [|apply elem_of_cons in Hcol as [->|Hcol]; [|inversion Hcol]];
      vm_compute in Hv; injection Hv as <-; eexists; reflexivity. }
  split; [exact H|].
  exact (proj1 (feature_vector_order decimal_literal two_features numeric_request H)).
Defined.

(** ** Rounding and the recommendation *)

Lemma round_half_even_near x :
  (x - 0.5 <= inject_Z (round_half_even x) <= x + 0.5)%Q.
Proof.
  unfold round_half_even.
  pose proof (Qfloor_le x) as Hlo. pose proof (Qlt_floor x) as Hhi.
  rewrite inject_Z_plus in Hhi. change (inject_Z 1) with 1%Q in Hhi.
  destruct (ltb (x - inject_Z (Qfloor x)) 0.5) eqn:E1.
  { apply ltb_lt in E1. lra. }
  apply ltb_ge in E1.
  destruct (ltb 0.5 (x - inject_Z (Qfloor x))) eqn:E2.
  { rewrite inject_Z_plus. change (inject_Z 1) with 1%Q. lra. }
  apply ltb_ge in E2.
  destruct (Z.even (Qfloor x)); [lra|].
  rewrite inject_Z_plus. change (inject_Z 1) with 1%Q. lra.
Qed.

Lemma py_round_3_near x : (x - 0.0005 <= py_round x 3 <= x + 0.0005)%Q.
Proof.
  unfold py_round. change (inject_Z (10 ^ Z.of_nat 3)) with 1000%Q.
  pose proof (round_half_even_near (x * 1000)) as H.
  revert H. generalize (inject_Z (round_half_even (x * 1000))). intros k H.
  unfold Qdiv. change (/ 1000)%Q with 0.001%Q. lra.
Qed.

Lemma py_round_decimals x n : has_decimals n (py_round x n).
Proof. eexists. unfold py_round. reflexivity. Qed.

(** ** Rounding to the nearest, and [float] on integers *)

Lemma Qfloor_unique (x : Q) (k : Z) :
  (inject_Z k <= x)%Q -> (x < inject_Z (k + 1))%Q -> Qfloor x = k.
Proof.
  intros Hlo Hhi.
  pose proof (Qfloor_le x) as H1. pose proof (Qlt_floor x) as H2.
  assert (Ha : (inject_Z (Qfloor x) < inject_Z (k + 1))%Q) by lra.
  assert (Hb : (inject_Z k < inject_Z (Qfloor x + 1))%Q) by lra.
  rewrite <- Zlt_Qlt in Ha, Hb. lia.
Qed.

Lemma round_half_even_mono (x y : Q) :
  (x <= y)%Q -> (round_half_even x <= round_half_even y)%Z.
Proof.
  intros Hxy.
  assert (Hf : (Qfloor x <= Qfloor y)%Z) by (apply Qfloor_resp_le, Hxy).
  pose proof (Qfloor_le x) as Hx1. pose proof (Qlt_floor x) as Hx2.
  pose proof (Qfloor_le y) as Hy1. pose proof (Qlt_floor y) as Hy2.
  assert (Hrx : (Qfloor x <= round_half_even x <= Qfloor x + 1)%Z).
  { unfold round_half_even. repeat destruct (ltb _ _); try destruct (Z.even _); lia. }
  assert (Hry : (Qfloor y <= round_half_even y <= Qfloor y + 1)%Z).
  { unfold round_half_even. repeat destruct (ltb _ _); try destruct (Z.even _); lia. }
  destruct (Z.eq_dec (Qfloor x) (Qfloor y)) as [Heq|Hne]; [|lia].
  unfold round_half_even. rewrite <- Heq.
  destruct (ltb (x - inject_Z (Qfloor x)) 0.5) eqn:Ex1.
  - repeat destruct (ltb _ _); try destruct (Z.even _); lia.
  - apply ltb_ge in Ex1.
    destruct (ltb (y - inject_Z (Qfloor x)) 0.5) eqn:Ey1.
    { apply ltb_lt in Ey1. lra. }
    destruct (ltb 0.5 (x - inject_Z (Qfloor x))) eqn:Ex2.
    + apply ltb_lt in Ex2.
      destruct (ltb 0.5 (y - inject_Z (Qfloor x))) eqn:Ey2; [lia|].
      apply ltb_ge in Ey2. lra.
    + repeat destruct (ltb _ _); try destruct (Z.even _); lia.
Qed.

Lemma round_half_even_integer (k : Z) : round_half_even (inject_Z k) = k.
Proof.
  assert (Hf : Qfloor (inject_Z k) = k).
  { apply Qfloor_unique; [lra|]. rewrite <- Zlt_Qlt. lia. }
  unfold round_half_even. rewrite Hf.
  assert (E : ltb (inject_Z k - inject_Z k) 0.5 = true) by (apply ltb_lt; lra).
  rewrite E. reflexivity.
Qed.

Lemma round_half_even_Qeq x y : (x == y)%Q -> round_half_even x = round_half_even y.
Proof.
  intros E. unfold round_half_even. rewrite (Qfloor_comp _ _ E).
  assert (E1 : ltb (x - inject_Z (Qfloor y)) 0.5 = ltb (y - inject_Z (Qfloor y)) 0.5).
  { unfold ltb. f_equal. apply eq_true_iff_eq. rewrite !Qle_bool_iff, E. reflexivity. }
  assert (E2 : ltb 0.5 (x - inject_Z (Qfloor y)) = ltb 0.5 (y - inject_Z (Qfloor y))).
  { unfold ltb. f_equal. apply eq_true_iff_eq. rewrite !Qle_bool_iff, E. reflexivity. }
  rewrite E1, E2. reflexivity.
Qed.

Lemma nearest_float_small z : (Z.abs z < 2 ^ 53)%Z -> nearest_float z = z.
Proof.
  intros Hz. unfold nearest_float.
  assert (Hs : (Z.max 0 (Z.log2 (Z.abs z) + 1 - 53) = 0)%Z).
  { destruct (Z.eq_dec (Z.abs z) 0%Z) as [E|E].
    - rewrite E. reflexivity.
    - assert (Z.log2 (Z.abs z) < 53)%Z by (apply Z.log2_lt_pow2; lia). lia. }
  rewrite Hs. change (2 ^ 0)%Z with 1%Z.
  rewrite (round_half_even_Qeq _ (inject_Z (Z.abs z))) by (unfold Qdiv; change (/ inject_Z 1)%Q with 1%Q; ring).
  rewrite round_half_even_integer. lia.
Qed.

Lemma int_to_float_small z :
  (Z.abs z < 2 ^ 53)%Z -> int_to_float z = Ok (inject_Z z).
Proof.
  intros Hz. unfold int_to_float. rewrite (nearest_float_small z Hz).
  destruct (Z.leb_spec (2 ^ 1024)%Z (Z.abs z)) as [H|_]; [|reflexivity].
  assert (2 ^ 53 < 2 ^ 1024)%Z by reflexivity. lia.
Qed.

Lemma Qdiv_inject_lower (b a P : Z) :
  (0 < P)%Z -> (b * P <= a)%Z -> (inject_Z b <= inject_Z a / inject_Z P)%Q.
Proof.
  intros HP H. apply Qle_shift_div_l.
  - change 0%Q with (inject_Z 0). rewrite <- Zlt_Qlt. exact HP.
  - rewrite <- inject_Z_mult, <- Zle_Qle. exact H.
Qed.

Lemma Qdiv_inject_upper (b a P : Z) :
  (0 < P)%Z -> (a <= b * P)%Z -> (inject_Z a / inject_Z P <= inject_Z b)%Q.
Proof.
  intros HP H. apply Qle_shift_div_r.
  - change 0%Q with (inject_Z 0). rewrite <- Zlt_Qlt. exact HP.
  - rewrite <- inject_Z_mult, <- Zle_Qle. exact H.
Qed.

Lemma Qdiv_inject_mono (a a' P : Z) :
  (0 < P)%Z -> (a <= a')%Z -> (inject_Z a / inject_Z P <= inject_Z a' / inject_Z P)%Q.
Proof.
  intros HP H. unfold Qdiv. apply Qmult_le_compat_r.
  - rewrite <- Zle_Qle. exact H.
  - apply Qinv_le_0_compat. change 0%Q with (inject_Z 0). rewrite <- Zle_Qle. lia.
Qed.

(** The magnitude of the nearest float of an integer of magnitude [a]. *)
Lemma abs_nearest_float z :
  Z.abs (nearest_float z)
  = (round_half_even (inject_Z (Z.abs z)
                      / inject_Z (2 ^ Z.max 0 (Z.log2 (Z.abs z) + 1 - 53)))
     * 2 ^ Z.max 0 (Z.log2 (Z.abs z) + 1 - 53))%Z.
Proof.
  unfold nearest_float.
  set (s := (Z.max 0 (Z.log2 (Z.abs z) + 1 - 53))%Z).
  assert (HP : (0 < 2 ^ s)%Z) by (apply Z.pow_pos_nonneg; unfold s; lia).
  assert (Hm : (0 <= round_half_even (inject_Z (Z.abs z) / inject_Z (2 ^ s)))%Z).
  { apply Z.le_trans with (round_half_even (inject_Z 0)).
    - rewrite round_half_even_integer. lia.
    - apply round_half_even_mono.
      apply (Qdiv_inject_lower 0%Z (Z.abs z) (2 ^ s)%Z HP). lia. }
  destruct (Z.eq_dec z 0%Z) as [->|Hz].
  - cbn [Z.sgn Z.abs Z.mul]. unfold s. cbn. reflexivity.
  - rewrite Z.abs_mul.
    replace (Z.abs (Z.sgn z)) with 1%Z by lia.
    rewrite Z.mul_1_l. apply Z.abs_eq.
    apply Z.mul_nonneg_nonneg; lia.
Qed.

Lemma nearest_float_overflow z :
  (2 ^ 1024 <= Z.abs (nearest_float z))%Z <-> (2 ^ 1024 - 2 ^ 970 <= Z.abs z)%Z.
Proof.
  destruct (Z_lt_le_dec (Z.abs z) (2 ^ 53)%Z) as [Hsmall|Hbig].
  { rewrite (nearest_float_small z Hsmall).
    assert (2 ^ 53 < 2 ^ 1024 - 2 ^ 970)%Z by reflexivity.
    assert (2 ^ 53 < 2 ^ 1024)%Z by reflexivity. lia. }
  rewrite abs_nearest_float.
  generalize dependent (Z.abs z). intros a Hbig.
  assert (Ha : (0 < a)%Z) by (assert (0 < 2 ^ 53)%Z by reflexivity; lia).
  assert (HL : (53 <= Z.log2 a)%Z) by (apply Z.log2_le_pow2; [exact Ha|exact Hbig]).
  destruct (Z.log2_spec a Ha) as [Hlo Hhi].
  replace (Z.max 0 (Z.log2 a + 1 - 53))%Z with (Z.log2 a - 52)%Z by lia.
  set (L := Z.log2 a) in *. set (P := (2 ^ (L - 52))%Z).
  assert (HP : (0 < P)%Z) by (apply Z.pow_pos_nonneg; lia).
  assert (E52 : (2 ^ L = 2 ^ 52 * P)%Z)
    by (unfold P; rewrite <- Z.pow_add_r by lia; f_equal; lia).
  assert (E53 : (2 ^ Z.succ L = 2 ^ 53 * P)%Z)
    by (unfold P; rewrite <- Z.pow_add_r by lia; f_equal; lia).
  assert (Hm1 : (2 ^ 52 <= round_half_even (inject_Z a / inject_Z P))%Z).
  { apply Z.le_trans with (round_half_even (inject_Z (2 ^ 52))).
    - rewrite round_half_even_integer. lia.
    - apply round_half_even_mono, Qdiv_inject_lower; [exact HP|lia]. }
  assert (Hm2 : (round_half_even (inject_Z a / inject_Z P) <= 2 ^ 53)%Z).
  { apply Z.le_trans with (round_half_even (inject_Z (2 ^ 53))).
    - apply round_half_even_mono, Qdiv_inject_upper; [exact HP|lia].
    - rewrite round_half_even_integer. lia. }
  destruct (Z_lt_le_dec L 1023%Z) as [Hl|Hl].
  - (* both sides are false *)
    assert (H1 : (2 ^ Z.succ L <= 2 ^ 1023)%Z) by (apply Z.pow_le_mono_r; lia).
    assert (H2 : (round_half_even (inject_Z a / inject_Z P) * P <= 2 ^ 53 * P)%Z)
      by (apply Z.mul_le_mono_nonneg_r; lia).
    assert (2 ^ 1023 < 2 ^ 1024 - 2 ^ 970)%Z by reflexivity.
    assert (2 ^ 1023 < 2 ^ 1024)%Z by reflexivity.
    split; intros Hgoal; lia.
  - destruct (Z.eq_dec L 1023%Z) as [EL|NL].
    + assert (EP : P = (2 ^ 971)%Z) by (unfold P; rewrite EL; reflexivity).
      rewrite EP in *. clear E52 E53.
      split; intros Hgoal.
      * destruct (Z_lt_le_dec a (2 ^ 1024 - 2 ^ 970)%Z) as [Hlt|Hge]; [|exact Hge].
        exfalso.
        assert (Hx : (round_half_even (inject_Z a / inject_Z (2 ^ 971))
                      <= round_half_even (inject_Z (2 ^ 1024 - 2 ^ 970 - 1)
                                          / inject_Z (2 ^ 971)))%Z)
          by (apply round_half_even_mono, Qdiv_inject_mono; [reflexivity|lia]).
        assert (Hv : round_half_even (inject_Z (2 ^ 1024 - 2 ^ 970 - 1)
                                      / inject_Z (2 ^ 971)) = (2 ^ 53 - 1)%Z)
          by (vm_compute; reflexivity).
        rewrite Hv in Hx.
        assert (H2 : (round_half_even (inject_Z a / inject_Z (2 ^ 971)) * 2 ^ 971
                      <= (2 ^ 53 - 1) * 2 ^ 971)%Z)
          by (apply Z.mul_le_mono_nonneg_r; [apply Z.pow_nonneg; lia|exact Hx]).
        assert (((2 ^ 53 - 1) * 2 ^ 971 < 2 ^ 1024)%Z) by reflexivity.
        lia.
      * assert (Hx : (round_half_even (inject_Z (2 ^ 1024 - 2 ^ 970) / inject_Z (2 ^ 971))
                      <= round_half_even (inject_Z a / inject_Z (2 ^ 971)))%Z)
          by (apply round_half_even_mono, Qdiv_inject_mono; [reflexivity|exact Hgoal]).
        assert (Hv : round_half_even (inject_Z (2 ^ 1024 - 2 ^ 970) / inject_Z (2 ^ 971))
                     = (2 ^ 53)%Z)
          by (vm_compute; reflexivity).
        rewrite Hv in Hx.
        assert (H2 : (2 ^ 53 * 2 ^ 971
                      <= round_half_even (inject_Z a / inject_Z (2 ^ 971)) * 2 ^ 971)%Z)
          by (apply Z.mul_le_mono_nonneg_r; [apply Z.pow_nonneg; lia|exact Hx]).
        assert ((2 ^ 53 * 2 ^ 971 = 2 ^ 1024)%Z) by reflexivity.
        lia.
    + (* both sides are true *)
      assert (H1 : (2 ^ 1024 <= 2 ^ L)%Z) by (apply Z.pow_le_mono_r; lia).
      assert (H2 : (2 ^ 52 * P <= round_half_even (inject_Z a / inject_Z P) * P)%Z)
        by (apply Z.mul_le_mono_nonneg_r; lia).
      assert (0 < 2 ^ 970)%Z by reflexivity.
      split; intros _; lia.
Qed.

Lemma int_to_float_overflow z :
  int_to_float z = Raise OverflowError <-> (2 ^ 1024 - 2 ^ 970 <= Z.abs z)%Z.
Proof.
  rewrite <- nearest_float_overflow. unfold int_to_float.
  destruct (Z.leb_spec (2 ^ 1024)%Z (Z.abs (nearest_float z))) as [H|H].
  - split; [intros _; exact H|reflexivity].
  - split; [discriminate|lia].
Qed.

Lemma recommend_low p : (p < 0.3)%Q -> recommend p = LOW_RISK.
Proof. intros H. unfold recommend. apply ltb_lt in H. rewrite H. reflexivity. Qed.

Lemma recommend_moderate p : (0.3 <= p < 0.7)%Q -> recommend p = MODERATE_RISK.
Proof.
  intros [H1 H2]. unfold recommend.
  apply ltb_ge in H1. apply ltb_lt in H2. rewrite H1, H2. reflexivity.
Qed.

Lemma recommend_high p : (0.7 <= p)%Q -> recommend p = HIGH_RISK.
Proof.
  intros H. unfold recommend.
  assert (H1 : ltb p 0.3 = false) by (apply ltb_ge; lra).
  apply ltb_ge in H. rewrite H1, H. reflexivity.
Qed.

(** C5.  The response carries the probability rounded to three decimals
    and the recommendation chosen by the cut points 0.3 and 0.7: low risk
    on [0, 0.3), moderate risk on [0.3, 0.7) and high risk on [0.7, 1],
    with 0.3 mapped to moderate, 0.7 to high, 0.0 to low and 1.0 to
    high. *)
Theorem recommendation_cut_points (str_to_float : string -> option Q)
    (artifact : Artifact) (payload : FeatureVector) (x : list Q) :
  build_x str_to_float artifact payload = Ok x ->
  let p := model artifact x in
  predict_failure_24h str_to_float artifact payload
  = Ok [("failure_probability_24h", JFloat (py_round p 3));
        ("recommendation", JStr (recommend p))] /\
  ((0 <= p < 0.3)%Q -> recommend p = LOW_RISK) /\
  ((0.3 <= p < 0.7)%Q -> recommend p = MODERATE_RISK) /\
  ((0.7 <= p <= 1)%Q -> recommend p = HIGH_RISK) /\
  (recommend 0.3 = MODERATE_RISK /\ recommend 0.7 = HIGH_RISK /\
   recommend 0.0 = LOW_RISK /\ recommend 1.0 = HIGH_RISK) /\
  (LOW_RISK <> MODERATE_RISK /\ MODERATE_RISK <> HIGH_RISK /\ LOW_RISK <> HIGH_RISK) /\
  has_decimals 3 (py_round p 3) /\
  (p - 0.0005 <= py_round p 3 <= p + 0.0005)%Q.
Proof.
  intros Hx p. split; [rewrite predict_eq, Hx; reflexivity|].
  split; [intros [_ H]; apply recommend_low, H|].
  split; [apply recommend_moderate|].
  split; [intros [H _]; apply recommend_high, H|].
  split; [repeat split; reflexivity|].
  split; [repeat split; discriminate|].
  split; [apply py_round_decimals|apply py_round_3_near].
Qed.

Lemma recommendation_cut_points_witness :
  build_x decimal_literal two_features numeric_request = Ok [0.5; 2]%Q /\
  predict_failure_24h decimal_literal two_features numeric_request
  = Ok [("failure_probability_24h", JFloat (py_round (model two_features [0.5; 2]%Q) 3));
        ("recommendation", JStr (recommend (model two_features [0.5; 2]%Q)))].
Proof.
  assert (H : build_x decimal_literal two_features numeric_request = Ok [0.5; 2]%Q)
    by (vm_compute; reflexivity).
  split; [exact H|].
  exact (proj1 (recommendation_cut_points decimal_literal two_features numeric_request
                  _ H)).
Defined.

Example py_round_half_even :
  (py_round 0.0625 3 == 0.062)%Q /\ (py_round 0.0635 3 == 0.064)%Q /\
  (py_round 0.12349 3 == 0.123)%Q.
Proof. repeat split; vm_compute; reflexivity. Qed.

Example recommend_sample :
  recommend (model two_features [0.5; 2]%Q) = LOW_RISK.
Proof. vm_compute. reflexivity. Qed.

(** ** Values that [float] rejects *)

Lemma predict_Raise_iff str_to_float artifact payload e :
  predict_failure_24h str_to_float artifact payload = Raise e
  <-> build_x str_to_float artifact payload = Raise e.
Proof.
  rewrite predict_eq.
  destruct (build_x str_to_float artifact payload); split; congruence.
Qed.

Lemma predict_total str_to_float artifact payload :
  (exists e, build_x str_to_float artifact payload = Raise e /\
             predict_failure_24h str_to_float artifact payload = Raise e) \/
  (exists x, build_x str_to_float artifact payload = Ok x /\
             predict_failure_24h str_to_float artifact payload
             = Ok [("failure_probability_24h", JFloat (py_round (model artifact x) 3));
                   ("recommendation", JStr (recommend (model artifact x)))]).
Proof.
  rewrite predict_eq.
  destruct (build_x str_to_float artifact payload) as [x|e]; [right|left]; eauto.
Qed.

Lemma predict_delete_ok str_to_float artifact payload k r :
  predict_failure_24h str_to_float artifact payload = Ok r ->
  exists r', predict_failure_24h str_to_float artifact
               {| features := delete k (features payload) |} = Ok r'.
Proof.
  intros Hok.
  destruct (predict_total str_to_float artifact {| features := delete k (features payload) |})
    as [(e & Hb & _)|(x & _ & Hp)]; [|eauto].
  apply build_x_failure in Hb as (col & v & Hcol & Hv & Hf). cbn [features] in Hv.
  destruct (decide (k = col)) as [->|Hne].
  - rewrite lookup_delete_eq in Hv. discriminate.
  - rewrite lookup_delete_ne in Hv by exact Hne.
    destruct (build_x_fails str_to_float artifact payload col v e Hcol Hv Hf) as [e' He'].
    apply predict_Raise_iff in He'. congruence.
Qed.

Lemma py_float_Raise str_to_float v e :
  py_float str_to_float v = Raise e <->
  (e = TypeError /\ (v = JNull \/ (exists l, v = JList l) \/ (exists d, v = JDict d))) \/
  (e = ValueError /\ exists s, v = JStr s /\ str_to_float s = None) \/
  (e = OverflowError /\ exists z, v = JInt z /\ (2 ^ 1024 - 2 ^ 970 <= Z.abs z)%Z).
Proof.
  split.
  - destruct v as [| b | z | x | s | l | d]; cbn [py_float]; intros H.
    + injection H as <-. left. auto.
    + discriminate.
    + right. right.
      assert (He : e = OverflowError).
      { unfold int_to_float in H.
        destruct (2 ^ 1024 <=? Z.abs (nearest_float z))%Z; [|discriminate].
        injection H as <-. reflexivity. }
      subst e. split; [reflexivity|]. exists z. split; [reflexivity|].
      apply int_to_float_overflow, H.
    + discriminate.
    + destruct (str_to_float s) eqn:Hs; [discriminate|].
      injection H as <-. right. left. eauto.
    + injection H as <-. left. eauto.
    + injection H as <-. left. eauto.
  - intros [[-> [-> | [[l ->] | [d ->]]]] | [[-> (s & -> & Hs)] | [-> (z & -> & Hz)]]];
      cbn [py_float]; try reflexivity;
      [rewrite Hs; reflexivity|apply int_to_float_overflow, Hz].
Qed.

(** A boolean is no number, and the request that holds one under a
    feature name of the model is answered normally: whatever error counts
    as [InvalidInput], not every value that is not a number fails the
    request. *)
Lemma non_numeric_value_accepted :
  ~ (exists (str_to_float : string -> option Q) (InvalidInput : exn -> Prop),
       malformed_values_rejected str_to_float InvalidInput).
Proof.
  intros (str_to_float & InvalidInput & H).
  destruct (H two_features bool_request "f1" (JBool true)) as (e & He & _).
  - cbn. left.
  - vm_compute. reflexivity.
  - exact I.
  - vm_compute in He. discriminate.
Qed.

(** C6, as the code has it.  The values that [float] cannot convert are a
    null, a list and an object ([TypeError]), a string that spells no
    number ([ValueError]) and an integer too large for a float
    ([OverflowError]).  A request that holds such a value under one of the
    model's feature names fails, and a request that fails does so with the
    exception of [float] on such a value; the result is either that
    exception or the complete response.  Keys outside the feature names
    are ignored whatever they hold, and removing a key never turns a
    success into a failure. *)
Theorem unconvertible_value_fails (str_to_float : string -> option Q)
    (artifact : Artifact) (payload : FeatureVector) :
  (forall v e,
     py_float str_to_float v = Raise e <->
     (e = TypeError /\ (v = JNull \/ (exists l, v = JList l) \/ (exists d, v = JDict d))) \/
     (e = ValueError /\ exists s, v = JStr s /\ str_to_float s = None) \/
     (e = OverflowError /\ exists z, v = JInt z /\ (2 ^ 1024 - 2 ^ 970 <= Z.abs z)%Z)) /\
  (forall col v e,
     col ∈ feature_cols artifact -> features payload !! col = Some v ->
     py_float str_to_float v = Raise e ->
     exists e', predict_failure_24h str_to_float artifact payload = Raise e') /\
  (forall e,
     predict_failure_24h str_to_float artifact payload = Raise e ->
     exists col v, col ∈ feature_cols artifact /\ features payload !! col = Some v /\
                   py_float str_to_float v = Raise e) /\
  ((exists e, predict_failure_24h str_to_float artifact payload = Raise e) \/
   (exists x, build_x str_to_float artifact payload = Ok x /\
              predict_failure_24h str_to_float artifact payload
              = Ok [("failure_probability_24h", JFloat (py_round (model artifact x) 3));
                    ("recommendation", JStr (recommend (model artifact x)))])) /\
  (forall k v, k ∉ feature_cols artifact ->
     predict_failure_24h str_to_float artifact
       {| features := <[k := v]> (features payload) |}
     = predict_failure_24h str_to_float artifact payload) /\
  (forall k r,
     predict_failure_24h str_to_float artifact payload = Ok r ->
     exists r', predict_failure_24h str_to_float artifact
                  {| features := delete k (features payload) |} = Ok r').
Proof.
  split; [|split; [|split; [|split; [|split]]]].
  - intros v e. apply py_float_Raise.
  - intros col v e Hcol Hv Hf.
    destruct (build_x_fails str_to_float artifact payload col v e Hcol Hv Hf) as [e' He'].
    exists e'. apply predict_Raise_iff, He'.
  - intros e He. apply build_x_failure, predict_Raise_iff, He.
  - destruct (predict_total str_to_float artifact payload) as [(e & _ & He)|Hok];
      [left; eauto|right; exact Hok].
  - intros k v Hk. rewrite !predict_eq, build_x_insert_extra by exact Hk. reflexivity.
  - intros k r. apply predict_delete_ok.
Qed.

Lemma unconvertible_value_fails_witness :
  features null_request !! "f1" = Some JNull /\
  py_float decimal_literal JNull = Raise TypeError /\
  exists e, predict_failure_24h decimal_literal two_features null_request = Raise e.
Proof.
  assert (Hv : features null_request !! "f1" = Some JNull) by (vm_compute; reflexivity).
  assert (Hf : py_float decimal_literal JNull = Raise TypeError) by reflexivity.
  split; [exact Hv|]. split; [exact Hf|].
  refine (proj1 (proj2 (unconvertible_value_fails decimal_literal two_features null_request))
            "f1" JNull TypeError _ Hv Hf).
  cbn. left.
Defined.

(** [float] at the edge of the float range. *)
Example int_to_float_edge :
  int_to_float (2 ^ 53 + 1) = Ok (inject_Z (2 ^ 53)) /\
  int_to_float (2 ^ 1024 - 2 ^ 970 - 1) = Ok (inject_Z (2 ^ 1024 - 2 ^ 971)) /\
  int_to_float (2 ^ 1024 - 2 ^ 970) = Raise OverflowError /\
  int_to_float (- (2 ^ 1024 - 2 ^ 970)) = Raise OverflowError /\
  int_to_float (10 ^ 400) = Raise OverflowError.
Proof. vm_compute. repeat split. Qed.

Example huge_request_raises :
  predict_failure_24h decimal_literal two_features huge_request = Raise OverflowError.
Proof. vm_compute. reflexivity. Qed.

Example null_request_raises :
  predict_failure_24h decimal_literal two_features null_request = Raise TypeError.
Proof. vm_compute. reflexivity. Qed.

Example extra_null_request_answered :
  exists p r,
    predict_failure_24h decimal_literal two_features extra_null_request
    = Ok [("failure_probability_24h", JFloat p); ("recommendation", JStr r)].
Proof. vm_compute. eauto. Qed.

(** ** Values that [float] coerces *)

Lemma build_x_coerced str_to_float artifact payload :
  (forall col v, col ∈ feature_cols artifact -> features payload !! col = Some v ->
                 is_Some (coerced str_to_float v)) ->
  build_x str_to_float artifact payload
  = Ok ((fun col => default 0.0%Q (features payload !! col ≫= coerced str_to_float))
        <$> feature_cols artifact).
Proof.
  intros Hco. rewrite build_x_eq. apply comprehension_ok. intros col Hcol.
  destruct (features payload !! col) as [v|] eqn:Hv;
    cbn [default from_option id mbind option_bind].
  - destruct (Hco col v Hcol Hv) as [x Hx].
    rewrite py_float_coerced, Hx. reflexivity.
  - reflexivity.
Qed.

Lemma py_float_Raise_coerced str_to_float v e :
  py_float str_to_float v = Raise e -> coerced str_to_float v = None.
Proof.
  rewrite py_float_coerced. destruct (coerced str_to_float v); [discriminate|reflexivity].
Qed.

Lemma coerced_None_iff str_to_float v :
  coerced str_to_float v = None <->
  v = JNull \/ (exists l, v = JList l) \/ (exists d, v = JDict d) \/
  (exists s, v = JStr s /\ str_to_float s = None) \/
  (exists z, v = JInt z /\ (2 ^ 1024 - 2 ^ 970 <= Z.abs z)%Z).
Proof.
  split.
  - intros H.
    destruct (py_float str_to_float v) as [x|e] eqn:Hf.
    + rewrite py_float_coerced, H in Hf. discriminate.
    + apply py_float_Raise in Hf
        as [[_ [-> | [[l ->] | [d ->]]]] | [[_ (s & -> & Hs)] | [_ (z & -> & Hz)]]];
        eauto 8.
  - intros [-> | [[l ->] | [[d ->] | [(s & -> & Hs) | (z & -> & Hz)]]]];
      cbn [coerced]; try reflexivity; [exact Hs|].
    apply int_to_float_overflow in Hz. rewrite Hz. reflexivity.
Qed.

(** C9.  [float] turns True into 1.0, False into 0.0 and a string into the
    number it spells; a request whose expected values are numbers that a
    float can hold, booleans or such strings is answered normally, with
    the coerced values in the input row, and a request that fails holds,
    under an expected name, a value that [float] cannot convert: a null, a
    list, an object, a string that spells no number or an integer beyond
    the float range.  With "1.5" read as 1.5, the mapping
    {f1: "1.5", f2: true} gives the row [1.5; 1.0]. *)
Theorem float_coercion (str_to_float : string -> option Q)
    (artifact : Artifact) (payload : FeatureVector) :
  (py_float str_to_float (JBool true) = Ok 1.0%Q /\
   py_float str_to_float (JBool false) = Ok 0.0%Q /\
   (forall s q, str_to_float s = Some q -> py_float str_to_float (JStr s) = Ok q) /\
   (forall s, str_to_float s = None ->
              py_float str_to_float (JStr s) = Raise ValueError) /\
   (forall v, coerced str_to_float v = None <->
      v = JNull \/ (exists l, v = JList l) \/ (exists d, v = JDict d) \/
      (exists s, v = JStr s /\ str_to_float s = None) \/
      (exists z, v = JInt z /\ (2 ^ 1024 - 2 ^ 970 <= Z.abs z)%Z))) /\
  ((forall col v, col ∈ feature_cols artifact -> features payload !! col = Some v ->
                  is_Some (coerced str_to_float v)) ->
   build_x str_to_float artifact payload
   = Ok ((fun col => default 0.0%Q (features payload !! col ≫= coerced str_to_float))
         <$> feature_cols artifact) /\
   exists p r,
     predict_failure_24h str_to_float artifact payload
     = Ok [("failure_probability_24h", JFloat p); ("recommendation", JStr r)]) /\
  (forall e,
     predict_failure_24h str_to_float artifact payload = Raise e ->
     exists col v, col ∈ feature_cols artifact /\ features payload !! col = Some v /\
                   coerced str_to_float v = None) /\
  (str_to_float "1.5" = Some 1.5%Q ->
   build_x str_to_float two_features coerced_request = Ok [1.5; 1.0]%Q /\
   exists p r,
     predict_failure_24h str_to_float two_features coerced_request
     = Ok [("failure_probability_24h", JFloat p); ("recommendation", JStr r)]).
Proof.
  split; [|split; [|split]].
  - split; [reflexivity|]. split; [reflexivity|]. split; [|split].
    + intros s q Hs. cbn [py_float]. rewrite Hs. reflexivity.
    + intros s Hs. cbn [py_float]. rewrite Hs. reflexivity.
    + intros v. apply coerced_None_iff.
  - intros Hco. pose proof (build_x_coerced _ _ _ Hco) as Hx.
    split; [exact Hx|]. rewrite predict_eq, Hx. eauto.
  - intros e He. apply predict_Raise_iff, build_x_failure in He as (col & v & Hc & Hv & Hf).
    exists col, v. split; [exact Hc|]. split; [exact Hv|].
    eapply py_float_Raise_coerced, Hf.
  - intros Hs.
    assert (Hx : build_x str_to_float two_features coerced_request = Ok [1.5; 1.0]%Q).
    { rewrite build_x_eq.
      change (feature_cols two_features) with ["f1"; "f2"].
      cbn [comprehension].
      replace (features coerced_request !! "f1") with (Some (JStr "1.5"))
        by (vm_compute; reflexivity).
      replace (features coerced_request !! "f2") with (Some (JBool true))
        by (vm_compute; reflexivity).
      cbn [default from_option id py_float]. rewrite Hs. reflexivity. }
    split; [exact Hx|]. rewrite predict_eq, Hx. eauto.
Qed.

Lemma float_coercion_witness :
  decimal_literal "1.5" = Some 1.5%Q /\
  build_x decimal_literal two_features coerced_request = Ok [1.5; 1.0]%Q.
Proof.
  assert (H : decimal_literal "1.5" = Some 1.5%Q) by (vm_compute; reflexivity).
  split; [exact H|].
  exact (proj1 (proj2 (proj2 (proj2
           (float_coercion decimal_literal two_features coerced_request))) H)).
Defined.

(** ** The stress bound on binary64 *)



#[warnings="-inexact-float"]
Example binary64_stress_top :
  PrimFloat.eqb (Binary64.stress_of 90 3 95) 0.082 = true.
Proof. vm_compute. reflexivity. Qed.

(** ** The wear of one step *)





(** * Further properties of the endpoint *)

Lemma comprehension_first_raise {A B} (f : A -> result B) l1 a l2 e :
  (forall b, b ∈ l1 -> exists y, f b = Ok y) ->
  f a = Raise e ->
  comprehension f (l1 ++ a :: l2) = Raise e.
Proof.
  intros Hok Ha. induction l1 as [|b l1 IH]; cbn [app comprehension].
  - rewrite Ha. reflexivity.
  - destruct (Hok b) as [y Hy]; [left|]. rewrite Hy. cbn [bind].
    rewrite IH by (intros c Hc; apply Hok; right; exact Hc). reflexivity.
Qed.

Lemma wire_value str_to_float payload col b :
  py_float str_to_float (default (JFloat 0.0) (features payload !! col)) = Ok b ->
  b = default 0.0%Q (features payload !! col ≫= coerced str_to_float) /\
  (features payload !! col = None \/
   exists v, features payload !! col = Some v /\ coerced str_to_float v = Some b).
Proof.
  destruct (features payload !! col) as [v|];
    cbn [default from_option id mbind option_bind].
  - rewrite py_float_coerced. destruct (coerced str_to_float v) as [q|] eqn:Hq;
      [|discriminate].
    intros H. injection H as <-. split; [reflexivity|]. right. eauto.
  - cbn [py_float]. intros H. injection H as <-. split; [reflexivity|]. left. reflexivity.
Qed.

(** X1.  Whatever the request holds, an input row that is built has one entry
    per stored feature name, in the stored order: the converted value of
    the name, or 0.0 for an absent name. *)
Theorem input_row_shape (str_to_float : string -> option Q)
    (artifact : Artifact) (payload : FeatureVector) (x : list Q) :
  build_x str_to_float artifact payload = Ok x ->
  length x = length (feature_cols artifact) /\
  forall i col, feature_cols artifact !! i = Some col ->
    x !! i = Some (default 0.0%Q (features payload !! col ≫= coerced str_to_float)) /\
    (features payload !! col = None \/
     exists v, features payload !! col = Some v /\ is_Some (coerced str_to_float v)).
Proof.
  rewrite build_x_eq. intros H.
  apply comprehension_Ok_inv in H as [Hlen Hlook]. split; [exact Hlen|].
  intros i col Hi. destruct (Hlook i col Hi) as (b & Hb & Hx).
  apply wire_value in Hb as [-> Hcase]. split; [exact Hx|].
  destruct Hcase as [Hnone|(v & Hv & Hco)]; [left; exact Hnone|].
  right. exists v. split; [exact Hv|]. rewrite Hco. eexists. reflexivity.
Qed.

Lemma input_row_shape_witness :
  build_x decimal_literal two_features coerced_request = Ok [1.5; 1.0]%Q /\
  length [1.5; 1.0]%Q = length (feature_cols two_features).
Proof.
  assert (H : build_x decimal_literal two_features coerced_request = Ok [1.5; 1.0]%Q)
    by (vm_compute; reflexivity).
  split; [exact H|].
  exact (proj1 (input_row_shape decimal_literal two_features coerced_request _ H)).
Defined.

(** X2.  The values are converted in the order of the stored feature names, so
    the exception of a request is the one of the first name whose value
    [float] rejects. *)
Theorem first_rejected_value_decides (str_to_float : string -> option Q)
    (artifact : Artifact) (payload : FeatureVector)
    (before after : list string) (col : string) (v : json) (e : exn) :
  feature_cols artifact = (before ++ col :: after)%list ->
  (forall c w, c ∈ before -> features payload !! c = Some w ->
               is_Some (coerced str_to_float w)) ->
  features payload !! col = Some v ->
  py_float str_to_float v = Raise e ->
  predict_failure_24h str_to_float artifact payload = Raise e.
Proof.
  intros Hcols Hbefore Hv Hf. apply predict_Raise_iff.
  rewrite build_x_eq, Hcols. apply comprehension_first_raise.
  - intros c Hc. destruct (features payload !! c) as [w|] eqn:Hw;
      cbn [default from_option id].
    + destruct (Hbefore c w Hc Hw) as [q Hq]. exists q.
      rewrite py_float_coerced, Hq. reflexivity.
    + eexists. reflexivity.
  - rewrite Hv. exact Hf.
Qed.

Lemma first_rejected_value_decides_witness :
  feature_cols two_features = ([] ++ "f1" :: ["f2"])%list /\
  features two_errors_request !! "f1" = Some (JStr "abc") /\
  py_float decimal_literal (JStr "abc") = Raise ValueError /\
  py_float decimal_literal JNull = Raise TypeError /\
  predict_failure_24h decimal_literal two_features two_errors_request = Raise ValueError.
Proof.
  assert (Hc : feature_cols two_features = ([] ++ "f1" :: ["f2"])%list) by reflexivity.
  assert (Hv : features two_errors_request !! "f1" = Some (JStr "abc"))
    by (vm_compute; reflexivity).
  assert (Hf : py_float decimal_literal (JStr "abc") = Raise ValueError)
    by (vm_compute; reflexivity).
  split; [exact Hc|]. split; [exact Hv|]. split; [exact Hf|]. split; [reflexivity|].
  refine (first_rejected_value_decides decimal_literal two_features two_errors_request
            [] ["f2"] "f1" (JStr "abc") ValueError Hc _ Hv Hf).
  intros c w Hc'. inversion Hc'.
Defined.

(** X3.  The endpoint reads the request through the stored feature names only:
    two requests that agree on these names get the same answer. *)
Theorem answer_depends_on_expected_names (str_to_float : string -> option Q)
    (artifact : Artifact) (payload1 payload2 : FeatureVector) :
  (forall col, col ∈ feature_cols artifact ->
               features payload1 !! col = features payload2 !! col) ->
  predict_failure_24h str_to_float artifact payload1
  = predict_failure_24h str_to_float artifact payload2.
Proof.
  intros H. rewrite !predict_eq.
  replace (build_x str_to_float artifact payload2)
    with (build_x str_to_float artifact payload1); [reflexivity|].
  rewrite !build_x_eq. apply comprehension_ext.
  intros col Hcol. rewrite (H col Hcol). reflexivity.
Qed.

Lemma answer_depends_on_expected_names_witness :
  (forall col, col ∈ feature_cols two_features ->
               features extra_null_request !! col = features half_request !! col) /\
  predict_failure_24h decimal_literal two_features extra_null_request
  = predict_failure_24h decimal_literal two_features half_request.
Proof.
  assert (H : forall col, col ∈ feature_cols two_features ->
                features extra_null_request !! col = features half_request !! col).
  { intros col Hcol. cbn in Hcol.
    apply elem_of_cons in Hcol as [->|Hcol];
      [|apply elem_of_cons in Hcol as [->|Hcol]; [|inversion Hcol]];
      vm_compute; reflexivity. }
  split; [exact H|].
  exact (answer_depends_on_expected_names decimal_literal two_features _ _ H).
Defined.

(** ** The sample payload and the health check *)

Lemma zero_dict_lookup (names : list string) (d : gmap string json) col :
  foldl (fun d col => <[col := JFloat 0.0]> d) d names !! col
  = if decide (col ∈ names) then Some (JFloat 0.0) else d !! col.
Proof.
  revert d. induction names as [|name names IH]; intros d; cbn [foldl].
  - destruct (decide (col ∈ [])) as [H|_]; [inversion H|reflexivity].
  - rewrite IH. destruct (decide (col ∈ names)) as [Hin|Hout].
    + destruct (decide (col ∈ name :: names)) as [_|H]; [reflexivity|].
      exfalso. apply H. right. exact Hin.
    + destruct (decide (col = name)) as [->|Hne].
      * rewrite lookup_insert_eq.
        destruct (decide (name ∈ name :: names)) as [_|H]; [reflexivity|].
        exfalso. apply H. left.
      * rewrite lookup_insert_ne by congruence.
        destruct (decide (col ∈ name :: names)) as [H|_]; [|reflexivity].
        apply elem_of_cons in H as [H|H]; contradiction.
Qed.

Lemma zero_dict_size (names : list string) (d : gmap string json) :
  (size (foldl (fun d col => <[col := JFloat 0.0]> d) d names) <= size d + length names)%nat.
Proof.
  revert d. induction names as [|name names IH]; intros d; cbn [foldl length]; [lia|].
  etransitivity; [apply IH|].
  rewrite map_size_insert. destruct (d !! name); unfold id; lia.
Qed.

Lemma zero_dict_size_NoDup (names : list string) (d : gmap string json) :
  NoDup names -> (forall name, name ∈ names -> d !! name = None) ->
  size (foldl (fun d col => <[col := JFloat 0.0]> d) d names) = (size d + length names)%nat.
Proof.
  intros Hnd. revert d. induction Hnd as [|name names Hnotin Hnd IH]; intros d Hfresh;
    cbn [foldl length]; [lia|].
  rewrite IH.
  - rewrite map_size_insert, (Hfresh name) by (left). lia.
  - intros n Hn. rewrite lookup_insert_ne by (intros ->; contradiction).
    apply Hfresh. right. exact Hn.
Qed.

Lemma example_features_lookup artifact col :
  example_features artifact !! col
  = if decide (col ∈ take 10 (feature_cols artifact)) then Some (JFloat 0.0) else None.
Proof.
  unfold example_features. rewrite zero_dict_lookup, lookup_empty. reflexivity.
Qed.

(** X4.  The sample payload maps exactly the first ten stored feature names to
    0.0; it has at most ten keys and, when the stored names are distinct,
    exactly min(10, number of names). *)
Theorem sample_payload_keys (artifact : Artifact) :
  (forall col,
     features_example (sample_payload artifact) !! col
     = if decide (col ∈ take 10 (feature_cols artifact))
       then Some (JFloat 0.0) else None) /\
  (size (features_example (sample_payload artifact)) <= 10)%nat /\
  (size (features_example (sample_payload artifact)) <= length (feature_cols artifact))%nat /\
  (NoDup (feature_cols artifact) ->
   size (features_example (sample_payload artifact)) = (10 `min` length (feature_cols artifact))%nat).
Proof.
  unfold sample_payload. cbn [features_example].
  split; [intros col; apply example_features_lookup|].
  pose proof (zero_dict_size (take 10 (feature_cols artifact)) ∅) as Hsize.
  rewrite map_size_empty, length_take in Hsize. fold (example_features artifact) in Hsize.
  split; [lia|]. split; [lia|].
  intros Hnd. unfold example_features.
  rewrite zero_dict_size_NoDup.
  - rewrite map_size_empty, length_take. lia.
  - eapply sublist_NoDup; [exact Hnd|apply sublist_take].
  - intros name _. apply lookup_empty.
Qed.

Lemma sample_payload_keys_witness :
  NoDup (feature_cols two_features) /\
  size (features_example (sample_payload two_features)) = 2%nat.
Proof.
  assert (H : NoDup (feature_cols two_features)).
  { cbn. repeat constructor.
    - intros H. apply elem_of_cons in H as [H|H]; [discriminate|inversion H].
    - intros H. inversion H. }
  split; [exact H|].
  exact (proj2 (proj2 (proj2 (sample_payload_keys two_features))) H).
Defined.

Lemma fmap_const_replicate {A B} (b : B) (l : list A) :
  (fun _ => b) <$> l = replicate (length l) b.
Proof. induction l as [|a l IH]; [reflexivity|]. cbn. rewrite IH. reflexivity. Qed.

Lemma build_x_zero str_to_float artifact payload :
  (forall col, col ∈ feature_cols artifact ->
     features payload !! col = None \/ features payload !! col = Some (JFloat 0.0)) ->
  build_x str_to_float artifact payload
  = Ok (replicate (length (feature_cols artifact)) 0.0%Q).
Proof.
  intros H. rewrite build_x_eq, <- fmap_const_replicate.
  apply comprehension_ok. intros col Hcol.
  destruct (H col Hcol) as [-> | ->]; reflexivity.
Qed.

(** X5.  Posting the example of [sample_payload] back to [predict_24h] always
    succeeds: the input row is all zeros and the answer is the one of the
    empty request. *)
Theorem sample_payload_is_accepted (str_to_float : string -> option Q)
    (artifact : Artifact) :
  build_x str_to_float artifact {| features := features_example (sample_payload artifact) |}
  = Ok (replicate (length (feature_cols artifact)) 0.0%Q) /\
  predict_failure_24h str_to_float artifact {| features := features_example (sample_payload artifact) |}
  = predict_failure_24h str_to_float artifact {| features := ∅ |} /\
  exists p r,
    predict_failure_24h str_to_float artifact {| features := features_example (sample_payload artifact) |}
    = Ok [("failure_probability_24h", JFloat p); ("recommendation", JStr r)].
Proof.
  assert (Hs : build_x str_to_float artifact {| features := features_example (sample_payload artifact) |}
               = Ok (replicate (length (feature_cols artifact)) 0.0%Q)).
  { apply build_x_zero. intros col _. unfold sample_payload. cbn [features features_example].
    rewrite example_features_lookup.
    destruct (decide (col ∈ take 10 (feature_cols artifact))); auto. }
  assert (He : build_x str_to_float artifact {| features := ∅ |}
               = Ok (replicate (length (feature_cols artifact)) 0.0%Q)).
  { apply build_x_zero. intros col _. left. apply lookup_empty. }
  split; [exact Hs|]. rewrite !predict_eq, Hs, He. split; [reflexivity|eauto].
Qed.

(** X6.  The feature count of the health check is the width of the input row
    of every request that is answered, and no sample payload has more
    keys. *)
Theorem health_check_count (str_to_float : string -> option Q) (artifact : Artifact) :
  exists n : nat,
    read_root artifact
    = [("message", JStr "Predictive Maintenance API is running.");
       ("model_features_count", JInt (Z.of_nat n))] /\
    (forall payload x, build_x str_to_float artifact payload = Ok x -> length x = n) /\
    (size (features_example (sample_payload artifact)) <= n)%nat.
Proof.
  exists (length (feature_cols artifact)). split; [reflexivity|]. split.
  - intros payload x Hx. rewrite build_x_eq in Hx.
    apply comprehension_Ok_inv in Hx as [Hlen _]. exact Hlen.
  - pose proof (zero_dict_size (take 10 (feature_cols artifact)) ∅) as Hsize.
    rewrite map_size_empty, length_take in Hsize.
    unfold sample_payload, example_features. cbn [features_example]. lia.
Qed.

(** ** Rounding and the recommendation *)

Lemma py_round_3_mono (x y : Q) : (x <= y)%Q -> (py_round x 3 <= py_round y 3)%Q.
Proof.
  intros Hxy. unfold py_round. change (inject_Z (10 ^ Z.of_nat 3)) with 1000%Q.
  assert (H : (round_half_even (x * 1000) <= round_half_even (y * 1000))%Z)
    by (apply round_half_even_mono; lra).
  rewrite Zle_Qle in H. revert H.
  generalize (inject_Z (round_half_even (x * 1000))) (inject_Z (round_half_even (y * 1000))).
  intros a b H. unfold Qdiv. change (/ 1000)%Q with 0.001%Q. lra.
Qed.

Lemma py_round_3_thousandth (k : Z) :
  (py_round (inject_Z k / 1000) 3 == inject_Z k / 1000)%Q.
Proof.
  unfold py_round. change (inject_Z (10 ^ Z.of_nat 3)) with 1000%Q.
  assert (E : (inject_Z k / 1000 * 1000 == inject_Z k)%Q) by (field).
  assert (Hr : round_half_even (inject_Z k / 1000 * 1000) = k).
  { rewrite <- (round_half_even_integer k) at 2.
    unfold round_half_even.
    rewrite (Qfloor_comp _ _ E).
    assert (E1 : ltb (inject_Z k / 1000 * 1000 - inject_Z (Qfloor (inject_Z k))) 0.5
                 = ltb (inject_Z k - inject_Z (Qfloor (inject_Z k))) 0.5).
    { unfold ltb. f_equal. apply eq_true_iff_eq. rewrite !Qle_bool_iff. rewrite E. reflexivity. }
    assert (E2 : ltb 0.5 (inject_Z k / 1000 * 1000 - inject_Z (Qfloor (inject_Z k)))
                 = ltb 0.5 (inject_Z k - inject_Z (Qfloor (inject_Z k)))).
    { unfold ltb. f_equal. apply eq_true_iff_eq. rewrite !Qle_bool_iff. rewrite E. reflexivity. }
    rewrite E1, E2. reflexivity. }
  rewrite Hr. reflexivity.
Qed.

(** X7.  The reported probability keeps the order of the model's
    probabilities, and a probability of [0, 1] is reported as a value of
    [0, 1]; a value that already has three decimals is reported
    unchanged. *)
Theorem reported_probability_range :
  (forall p q, (p <= q)%Q -> (py_round p 3 <= py_round q 3)%Q) /\
  (forall p, (0 <= p <= 1)%Q -> (0 <= py_round p 3 <= 1)%Q) /\
  (forall k : Z, (py_round (inject_Z k / 1000) 3 == inject_Z k / 1000)%Q).
Proof.
  split; [exact py_round_3_mono|]. split; [|exact py_round_3_thousandth].
  intros p [H0 H1].
  pose proof (py_round_3_mono 0 p H0) as Ha.
  pose proof (py_round_3_mono p 1 H1) as Hb.
  pose proof (py_round_3_thousandth 0) as E0.
  pose proof (py_round_3_thousandth 1000) as E1.
  assert (Z0 : (inject_Z 0 / 1000 == 0)%Q) by reflexivity.
  assert (Z1 : (inject_Z 1000 / 1000 == 1)%Q) by reflexivity.
  assert (R0 : (py_round 0 3 == 0)%Q) by reflexivity.
  assert (R1 : (py_round 1 3 == 1)%Q) by reflexivity.
  lra.
Qed.

Lemma reported_probability_range_witness :
  (0 <= 0.2996 <= 1)%Q /\ (0 <= py_round 0.2996 3 <= 1)%Q.
Proof.
  assert (H : (0 <= 0.2996 <= 1)%Q) by lra.
  split; [exact H|]. exact (proj1 (proj2 reported_probability_range) 0.2996%Q H).
Defined.

(** X8.  The recommendation never gets milder when the probability grows. *)
Theorem recommendation_monotone (p q : Q) :
  (p <= q)%Q ->
  (recommend q = LOW_RISK -> recommend p = LOW_RISK) /\
  (recommend p = HIGH_RISK -> recommend q = HIGH_RISK) /\
  (recommend p = LOW_RISK \/ recommend p = MODERATE_RISK \/ recommend p = HIGH_RISK).
Proof.
  intros Hpq. unfold recommend.
  destruct (ltb p 0.3) eqn:P1; destruct (ltb p 0.7) eqn:P2;
    destruct (ltb q 0.3) eqn:Q1; destruct (ltb q 0.7) eqn:Q2;
    try apply ltb_lt in P1; try apply ltb_ge in P1;
    try apply ltb_lt in P2; try apply ltb_ge in P2;
    try apply ltb_lt in Q1; try apply ltb_ge in Q1;
    try apply ltb_lt in Q2; try apply ltb_ge in Q2;
    try lra;
    (split; [|split]); try discriminate; auto.
Qed.

Lemma recommendation_monotone_witness :
  (0.2 <= 0.8)%Q /\ (recommend 0.2 = HIGH_RISK -> recommend 0.8 = HIGH_RISK).
Proof.
  assert (H : (0.2 <= 0.8)%Q) by lra.
  split; [exact H|]. exact (proj1 (proj2 (recommendation_monotone 0.2 0.8 H))).
Defined.

(** X9.  The recommendation is chosen from the unrounded probability and the
    probability is rounded afterwards: just below a cut point the response
    reports the cut point itself together with the milder
    recommendation.  The bands [0.2996, 0.2999] and [0.6996, 0.6999] keep
    a distance from 0.2995, 0.3, 0.6995 and 0.7 that no rounding of a
    binary64 float bridges. *)
Theorem rounding_follows_recommendation (str_to_float : string -> option Q)
    (artifact : Artifact) (payload : FeatureVector) (x : list Q) :
  build_x str_to_float artifact payload = Ok x ->
  ((0.2996 <= model artifact x <= 0.2999)%Q ->
   exists p,
     predict_failure_24h str_to_float artifact payload
     = Ok [("failure_probability_24h", JFloat p); ("recommendation", JStr LOW_RISK)] /\
     (p == 0.3)%Q /\ recommend p = MODERATE_RISK) /\
  ((0.6996 <= model artifact x <= 0.6999)%Q ->
   exists p,
     predict_failure_24h str_to_float artifact payload
     = Ok [("failure_probability_24h", JFloat p); ("recommendation", JStr MODERATE_RISK)] /\
     (p == 0.7)%Q /\ recommend p = HIGH_RISK).
Proof.
  intros Hx. rewrite predict_eq, Hx.
  generalize (model artifact x). intros p. split; intros [Hlo Hhi].
  - exists (py_round p 3).
    assert (Hr : (py_round p 3 == 0.3)%Q).
    { pose proof (py_round_3_mono 0.2996 p Hlo) as Ha.
      pose proof (py_round_3_near p) as Hb.
      pose proof (py_round_decimals p 3) as [k Hk].
      assert (R : (py_round 0.2996 3 == 0.3)%Q) by reflexivity.
      change (inject_Z (10 ^ Z.of_nat 3)) with 1000%Q in Hk.
      assert (Hk1 : (inject_Z 299 < inject_Z k)%Q)
        by (change (inject_Z 299) with 299%Q; unfold Qdiv in Hk;
            change (/ 1000)%Q with 0.001%Q in Hk; lra).
      assert (Hk2 : (inject_Z k < inject_Z 301)%Q)
        by (change (inject_Z 301) with 301%Q; unfold Qdiv in Hk;
            change (/ 1000)%Q with 0.001%Q in Hk; lra).
      rewrite <- Zlt_Qlt in Hk1, Hk2. assert (k = 300%Z) by lia. subst k.
      rewrite Hk. reflexivity. }
    split; [rewrite (recommend_low p) by lra; reflexivity|]. split; [exact Hr|].
    apply recommend_moderate. lra.
  - exists (py_round p 3).
    assert (Hr : (py_round p 3 == 0.7)%Q).
    { pose proof (py_round_3_mono 0.6996 p Hlo) as Ha.
      pose proof (py_round_3_near p) as Hb.
      pose proof (py_round_decimals p 3) as [k Hk].
      assert (R : (py_round 0.6996 3 == 0.7)%Q) by reflexivity.
      change (inject_Z (10 ^ Z.of_nat 3)) with 1000%Q in Hk.
      assert (Hk1 : (inject_Z 699 < inject_Z k)%Q)
        by (change (inject_Z 699) with 699%Q; unfold Qdiv in Hk;
            change (/ 1000)%Q with 0.001%Q in Hk; lra).
      assert (Hk2 : (inject_Z k < inject_Z 701)%Q)
        by (change (inject_Z 701) with 701%Q; unfold Qdiv in Hk;
            change (/ 1000)%Q with 0.001%Q in Hk; lra).
      rewrite <- Zlt_Qlt in Hk1, Hk2. assert (k = 700%Z) by lia. subst k.
      rewrite Hk. reflexivity. }
    split; [rewrite (recommend_moderate p) by lra; reflexivity|]. split; [exact Hr|].
    apply recommend_high. lra.
Qed.

Lemma rounding_follows_recommendation_witness :
  build_x decimal_literal two_features near_cut_request = Ok [2.996; 0.0]%Q /\
  (0.2996 <= model two_features [2.996; 0.0]%Q <= 0.2999)%Q /\
  exists p,
    predict_failure_24h decimal_literal two_features near_cut_request
    = Ok [("failure_probability_24h", JFloat p); ("recommendation", JStr LOW_RISK)] /\
    (p == 0.3)%Q /\ recommend p = MODERATE_RISK.
Proof.
  assert (H : build_x decimal_literal two_features near_cut_request = Ok [2.996; 0.0]%Q)
    by (vm_compute; reflexivity).
  assert (Hp : (0.2996 <= model two_features [2.996; 0.0]%Q <= 0.2999)%Q)
    by (split; vm_compute; discriminate).
  split; [exact H|]. split; [exact Hp|].
  exact (proj1 (rounding_follows_recommendation decimal_literal two_features
                  near_cut_request _ H) Hp).
Defined.

(** ** The printed summary *)

Lemma add_to_group_new m v sums :
  Forall (fun p : nat * Z => (p.1 < m)%nat) sums ->
  add_to_group m v sums = (sums ++ [(m, v)])%list.
Proof.
  induction 1 as [|[k s] sums Hk _ IH]; [reflexivity|].
  cbn [add_to_group app fst] in *.
  destruct (Nat.eqb_spec m k) as [->|_]; [lia|].
  destruct (Nat.ltb_spec m k) as [Hlt|_]; [lia|].
  rewrite IH. reflexivity.
Qed.

Lemma add_to_group_last m v s sums :
  Forall (fun p : nat * Z => (p.1 < m)%nat) sums ->
  add_to_group m v (sums ++ [(m, s)])%list = (sums ++ [(m, (s + v)%Z)])%list.
Proof.
  induction 1 as [|[k s'] sums Hk _ IH]; cbn [add_to_group app fst] in *.
  - rewrite Nat.eqb_refl. reflexivity.
  - destruct (Nat.eqb_spec m k) as [->|_]; [lia|].
    destruct (Nat.ltb_spec m k) as [Hlt|_]; [lia|].
    rewrite IH. reflexivity.
Qed.

Lemma groupby_sum_block m s sums (vs : list Z) :
  Forall (fun p : nat * Z => (p.1 < m)%nat) sums ->
  foldl (fun sums (kv : nat * Z) => add_to_group kv.1 kv.2 sums)
        (sums ++ [(m, s)])%list (pair m <$> vs)
  = (sums ++ [(m, (s + foldr Z.add 0 vs)%Z)])%list.
Proof.
  intros Hs. revert s. induction vs as [|v vs IH]; intros s; cbn [fmap list_fmap foldl foldr].
  - rewrite Z.add_0_r. reflexivity.
  - cbn [fst snd]. rewrite add_to_group_last by exact Hs.
    rewrite IH. rewrite Z.add_assoc. reflexivity.
Qed.

Lemma groupby_sum_blocks (C : nat -> list Z) n a :
  (forall m, C m <> []) ->
  foldl (fun sums (kv : nat * Z) => add_to_group kv.1 kv.2 sums)
        ((fun k => (k, foldr Z.add 0%Z (C k))) <$> seq 0 a)
        (concat ((fun m => pair m <$> C m) <$> seq a n))
  = (fun k => (k, foldr Z.add 0%Z (C k))) <$> seq 0 (a + n).
Proof.
  intros Hne. revert a. induction n as [|n IH]; intros a.
  - rewrite Nat.add_0_r. reflexivity.
  - cbn [seq fmap list_fmap concat]. rewrite foldl_app.
    assert (Hlt : Forall (fun p : nat * Z => (p.1 < a)%nat)
                    ((fun k => (k, foldr Z.add 0%Z (C k))) <$> seq 0 a)).
    { apply Forall_fmap, Forall_forall. intros k Hk. cbn.
      apply elem_of_seq in Hk. lia. }
    destruct (C a) as [|v vs] eqn:HC; [exfalso; exact (Hne a HC)|].
    cbn [fmap list_fmap foldl fst snd].
    rewrite add_to_group_new by exact Hlt.
    rewrite groupby_sum_block by exact Hlt.
    replace (((fun k => (k, foldr Z.add 0%Z (C k))) <$> seq 0 a) ++ [(a, (v + foldr Z.add 0 vs)%Z)])%list
      with ((fun k => (k, foldr Z.add 0%Z (C k))) <$> seq 0 (S a)).
    + rewrite (IH (S a)). f_equal. f_equal. lia.
    + rewrite seq_S, fmap_app. cbn [fmap list_fmap Nat.add]. rewrite HC. reflexivity.
Qed.

Lemma zip_ids (rows : list Row) (col : list Z) m :
  Forall (fun r => machine_id r = m) rows -> length rows = length col ->
  zip (machine_id <$> rows) col = pair m <$> col.
Proof.
  intros Hid. revert col. induction Hid as [|r rows Hr _ IH]; intros [|c col] Hlen;
    try discriminate; [reflexivity|].
  cbn [fmap list_fmap zip zip_with]. cbn in Hlen. rewrite Hr.
  f_equal. apply IH. lia.
Qed.

Lemma fmap_concat_seq {A B} (f : A -> B) (F : nat -> list A) a n :
  f <$> concat (F <$> seq a n) = concat ((fun m => f <$> F m) <$> seq a n).
Proof.
  revert a. induction n as [|n IH]; intros a; [reflexivity|].
  cbn [seq fmap list_fmap concat]. rewrite fmap_app.
  f_equal. apply IH.
Qed.

Lemma groupby_sum_table (F : nat -> list Row) (C : nat -> list Z) n :
  (forall m, Forall (fun r => machine_id r = m) (F m)) ->
  (forall m, length (F m) = length (C m)) ->
  (forall m, C m <> []) ->
  groupby_sum (machine_id <$> concat (F <$> seq 0 n)) (concat (C <$> seq 0 n))
  = (fun k => (k, foldr Z.add 0%Z (C k))) <$> seq 0 n.
Proof.
  intros Hid Hlen Hne. unfold groupby_sum.
  rewrite fmap_concat_seq.
  rewrite (zip_concat_seq (fun m => machine_id <$> F m) C)
    by (intros m; rewrite length_fmap; apply Hlen).
  rewrite (list_fmap_ext (fun m => zip (machine_id <$> F m) (C m))
             (fun m => pair m <$> C m) (seq 0 n))
    by (intros i m _; apply zip_ids; [apply Hid|apply Hlen]).
  apply (groupby_sum_blocks C n 0 Hne).
Qed.

Lemma crossings_values prev lows :
  Forall (fun f : Z => f = 0%Z \/ f = 1%Z) (crossings prev lows).
Proof.
  revert prev. induction lows as [|l lows IH]; intros prev; cbn [crossings].
  - constructor.
  - constructor; [|apply IH]. destruct (l && negb prev); auto.
Qed.

Lemma sum_flags (col : list Z) :
  Forall (fun f : Z => f = 0%Z \/ f = 1%Z) col ->
  foldr Z.add 0%Z col = Z.of_nat (length (filter (fun f : Z => f = 1%Z) col)).
Proof.
  induction 1 as [|f col [-> | ->] _ IH]; [reflexivity| |]; cbn [foldr].
  - rewrite filter_cons_False by discriminate. rewrite IH. lia.
  - rewrite filter_cons_True by reflexivity. rewrite IH. cbn [length]. lia.
Qed.

Lemma count_flags (col : list Z) :
  Forall (fun f : Z => f = 0%Z \/ f = 1%Z) col ->
  (Z.of_nat (length (filter (fun f : Z => f = 0%Z) col))
   + Z.of_nat (length (filter (fun f : Z => f = 1%Z) col)) = Z.of_nat (length col))%Z.
Proof.
  induction 1 as [|f col [-> | ->] _ IH]; [reflexivity| |].
  - rewrite filter_cons_True by reflexivity.
    rewrite filter_cons_False by discriminate. cbn [length]. lia.
  - rewrite filter_cons_False by discriminate.
    rewrite filter_cons_True by reflexivity. cbn [length]. lia.
Qed.

Lemma tally_both a b (col : list Z) :
  Forall (fun f : Z => f = 0%Z \/ f = 1%Z) col ->
  foldl (fun counts v => count_value v counts) [(0%Z, a); (1%Z, b)] col
  = [(0%Z, (a + Z.of_nat (length (filter (fun f : Z => f = 0%Z) col)))%Z);
     (1%Z, (b + Z.of_nat (length (filter (fun f : Z => f = 1%Z) col)))%Z)].
Proof.
  intros H. revert a b. induction H as [|f col [-> | ->] _ IH]; intros a b; cbn [foldl].
  - cbn. rewrite !Z.add_0_r. reflexivity.
  - cbn [count_value Z.eqb]. rewrite IH.
    rewrite filter_cons_True by reflexivity.
    rewrite filter_cons_False by discriminate. cbn [length].
    apply (f_equal2 (fun x y : Z => [(0%Z, x); (1%Z, y)])); lia.
  - cbn [count_value Z.eqb Pos.eqb]. rewrite IH.
    rewrite filter_cons_False by discriminate.
    rewrite filter_cons_True by reflexivity. cbn [length].
    apply (f_equal2 (fun x y : Z => [(0%Z, x); (1%Z, y)])); lia.
Qed.

Lemma tally_zero_first a (col : list Z) :
  Forall (fun f : Z => f = 0%Z \/ f = 1%Z) col ->
  Exists (fun f : Z => f = 1%Z) col ->
  foldl (fun counts v => count_value v counts) [(0%Z, a)] col
  = [(0%Z, (a + Z.of_nat (length (filter (fun f : Z => f = 0%Z) col)))%Z);
     (1%Z, Z.of_nat (length (filter (fun f : Z => f = 1%Z) col)))].
Proof.
  intros H. revert a. induction H as [|f col [-> | ->] Hcol IH]; intros a Hex; cbn [foldl].
  - inversion Hex.
  - cbn [count_value Z.eqb]. rewrite IH.
    + rewrite filter_cons_True by reflexivity.
      rewrite filter_cons_False by discriminate. cbn [length].
    apply (f_equal2 (fun x y : Z => [(0%Z, x); (1%Z, y)])); lia.
    + inversion Hex as [? ? Hf|]; [discriminate|assumption].
  - cbn [count_value Z.eqb]. rewrite tally_both by exact Hcol.
    rewrite filter_cons_False by discriminate.
    rewrite filter_cons_True by reflexivity. cbn [length].
    apply (f_equal2 (fun x y : Z => [(0%Z, x); (1%Z, y)])); lia.
Qed.

Lemma Forall_concat_seq {A} (P : A -> Prop) (F : nat -> list A) a n :
  (forall m, Forall P (F m)) -> Forall P (concat (F <$> seq a n)).
Proof.
  intros H. revert a. induction n as [|n IH]; intros a; cbn [seq fmap list_fmap concat].
  - constructor.
  - apply Forall_app. split; [apply H|apply IH].
Qed.

Lemma count_concat_seq {A} (P : A -> Prop) `{forall x, Decision (P x)}
    (F : nat -> list A) (c : nat) a n :
  (forall m, (a <= m < a + n)%nat -> length (filter P (F m)) = c) ->
  length (filter P (concat (F <$> seq a n))) = (n * c)%nat.
Proof.
  revert a. induction n as [|n IH]; intros a Hc; cbn [seq fmap list_fmap concat].
  - reflexivity.
  - rewrite filter_app, length_app, Hc, IH by (intros; try apply Hc; lia). reflexivity.
Qed.

Lemma length_concat_seq {A} (F : nat -> list A) (c : nat) a n :
  (forall m, length (F m) = c) ->
  length (concat (F <$> seq a n)) = (n * c)%nat.
Proof.
  intros Hc. revert a. induction n as [|n IH]; intros a; cbn [seq fmap list_fmap concat].
  - reflexivity.
  - rewrite length_app, Hc, IH. reflexivity.
Qed.

Lemma tally_flags (col : list Z) :
  Forall (fun f : Z => f = 0%Z \/ f = 1%Z) col ->
  col !! 0%nat = Some 0%Z ->
  Exists (fun f : Z => f = 1%Z) col ->
  foldl (fun counts v => count_value v counts) [] col
  = [(0%Z, Z.of_nat (length (filter (fun f : Z => f = 0%Z) col)));
     (1%Z, Z.of_nat (length (filter (fun f : Z => f = 1%Z) col)))].
Proof.
  intros Hv H0 Hex. destruct col as [|f col]; [discriminate|].
  cbn in H0. injection H0 as ->.
  apply Forall_cons in Hv as [_ Hv].
  apply Exists_cons in Hex as [Hex|Hex]; [discriminate|].
  cbn [foldl count_value]. rewrite (tally_zero_first 1 col Hv Hex).
  rewrite filter_cons_True by reflexivity.
  rewrite filter_cons_False by discriminate. cbn [length].
  apply (f_equal2 (fun x y : Z => [(0%Z, x); (1%Z, y)])); lia.
Qed.

Lemma filter_Exists {A} (P : A -> Prop) `{forall x, Decision (P x)} (l : list A) :
  (0 < length (filter P l))%nat -> Exists P l.
Proof.
  intros Hlen. destruct (filter P l) as [|x k] eqn:E; [cbn in Hlen; lia|].
  apply Exists_exists. exists x.
  assert (Hx : x ∈ filter P l) by (rewrite E; left).
  apply list_elem_of_filter in Hx as [HP Hin]. split; assumption.
Qed.

Lemma first_flag machine d :
  crossings false (low_health (simulate_machine machine d)) !! 0%nat = Some 0%Z.
Proof.
  assert (H0 : (0 < N_STEPS)%nat) by (pose proof one_lt_N_STEPS; lia).
  rewrite (crossings_lookup false _ 0 _
             (low_health_lookup _ 0 _ (simulate_machine_lookup machine d 0 H0))).
  rewrite (health_score_row machine d 0 H0). reflexivity.
Qed.

Lemma flags_sum machine d :
  wf_draws d ->
  length (filter (fun f : Z => f = 1%Z)
            (crossings false (low_health (simulate_machine machine d)))) = 1%nat.
Proof.
  intros Hwf. apply crossings_count.
  - apply never_recovers_stays_low, non_increasing_never_recovers,
      health_column_non_increasing.
    destruct (wf_base_wear_rate _ Hwf) as [Hb _]. lra.
  - apply exists_low_flag, simulate_machine_reaches_low, Hwf.
Qed.

(** X19.  The summary that the script prints.  Whatever the random draws are,
    the event counts are 432000 rows with failed = 0 and 50 rows with
    failed = 1, and the failures per machine are 1 for each of the
    machines 0 .. 49. *)
Theorem printed_summary (draws : nat -> Draws) :
  (forall m, (m < N_MACHINES)%nat -> wf_draws (draws m)) ->
  value_counts (failed (data draws)) = [(0, 432000); (1, 50)]%Z /\
  groupby_sum (machine_id <$> data draws) (failed (data draws))
  = (fun m => (m, 1%Z)) <$> seq 0 N_MACHINES.
Proof.
  intros Hwf. rewrite failed_data, data_concat. unfold all_data.
  set (C := fun m => crossings false (low_health (simulate_machine m (draws m)))).
  assert (Hlen : forall m, length (C m) = N_STEPS).
  { intros m. unfold C. rewrite length_crossings, length_low_health.
    apply length_simulate_machine. }
  assert (Hone : forall m, (m < N_MACHINES)%nat ->
                   length (filter (fun f : Z => f = 1%Z) (C m)) = 1%nat).
  { intros m Hm. apply flags_sum, Hwf, Hm. }
  assert (Hval : forall m, Forall (fun f : Z => f = 0%Z \/ f = 1%Z) (C m)).
  { intros m. apply crossings_values. }
  split.
  - unfold value_counts.
    assert (Hv : Forall (fun f : Z => f = 0%Z \/ f = 1%Z) (concat (C <$> seq 0 N_MACHINES)))
      by (apply Forall_concat_seq, Hval).
    assert (H1 : Z.of_nat (length (filter (fun f : Z => f = 1%Z)
                                     (concat (C <$> seq 0 N_MACHINES)))) = 50%Z).
    { pose proof (count_concat_seq (fun f : Z => f = 1%Z) C 1 0 N_MACHINES) as Hc.
      rewrite Hc by (intros m Hm; apply Hone; lia).
      rewrite N_MACHINES_value. reflexivity. }
    assert (Hl : Z.of_nat (length (concat (C <$> seq 0 N_MACHINES))) = 432050%Z).
    { rewrite (length_concat_seq C N_STEPS 0 N_MACHINES Hlen).
      rewrite Nat2Z.inj_mul, N_STEPS_value, N_MACHINES_value. reflexivity. }
    assert (Hh : concat (C <$> seq 0 N_MACHINES) !! 0%nat = Some 0%Z).
    { rewrite N_MACHINES_value. cbn [seq fmap list_fmap concat].
      rewrite lookup_app_l by (rewrite Hlen; pose proof one_lt_N_STEPS; lia).
      apply first_flag. }
    pose proof (count_flags _ Hv) as Hsum.
    rewrite tally_flags; [|exact Hv|exact Hh|].
    + replace (Z.of_nat (length (filter (fun f : Z => f = 0%Z)
                                   (concat (C <$> seq 0 N_MACHINES))))) with 432000%Z by lia.
      rewrite H1. reflexivity.
    + apply (filter_Exists (fun f : Z => f = 1%Z)). lia.
  - rewrite (groupby_sum_table (fun m => simulate_machine m (draws m)) C N_MACHINES).
    + apply list_fmap_ext. intros i m Hm. apply lookup_seq in Hm as [-> Hi].
      cbv beta. rewrite Nat.add_0_l, (sum_flags _ (Hval i)), (Hone i) by lia. reflexivity.
    + intros m. apply simulate_machine_ids.
    + intros m. rewrite Hlen. apply length_simulate_machine.
    + intros m HC. pose proof (Hlen m) as HL. rewrite HC in HL.
      pose proof one_lt_N_STEPS. cbn in HL. lia.
Qed.

Lemma printed_summary_witness :
  (forall m, (m < N_MACHINES)%nat -> wf_draws ((fun _ => quiet_draws) m)) /\
  value_counts (failed (data (fun _ => quiet_draws))) = [(0, 432000); (1, 50)]%Z.
Proof.
  assert (H : forall m, (m < N_MACHINES)%nat -> wf_draws ((fun _ : nat => quiet_draws) m))
    by (intros m _; exact quiet_draws_wf).
  split; [exact H|]. exact (proj1 (printed_summary (fun _ => quiet_draws) H)).
Defined.

(** ** When a machine fails and when it is worn out *)

Lemma inject_nat_succ t : (inject_Z (Z.of_nat (S t)) == inject_Z (Z.of_nat t) + 1)%Q.
Proof. rewrite Nat2Z.inj_succ. unfold Z.succ. rewrite inject_Z_plus. reflexivity. Qed.

(** The score lies above the line of the largest wear of a step. *)
Lemma health_at_lower base_wear_rate temp vibration load_pct t :
  (1 - inject_Z (Z.of_nat t) * (base_wear_rate + 0.082)
   <= health_at base_wear_rate temp vibration load_pct t)%Q.
Proof.
  induction t as [|t IH].
  - change (inject_Z (Z.of_nat 0)) with 0%Q. cbn [health_at]. lra.
  - pose proof (health_at_drop base_wear_rate temp vibration load_pct t) as Hd.
    rewrite inject_nat_succ. revert IH Hd.
    generalize (health_at base_wear_rate temp vibration load_pct (S t))
               (health_at base_wear_rate temp vibration load_pct t)
               (inject_Z (Z.of_nat t)).
    intros h' h z IH Hd. lra.
Qed.

Lemma health_at_early base_wear_rate temp vibration load_pct t :
  (0 <= base_wear_rate < 0.0003)%Q -> (Z.of_nat t <= 8)%Z ->
  (0.3 <= health_at base_wear_rate temp vibration load_pct t)%Q.
Proof.
  intros Hb Ht. pose proof (health_at_lower base_wear_rate temp vibration load_pct t) as H.
  rewrite Zle_Qle in Ht. change (inject_Z 8) with 8%Q in Ht.
  assert (Hm : (inject_Z (Z.of_nat t) * (base_wear_rate + 0.082)
                <= 8 * (base_wear_rate + 0.082))%Q)
    by (apply Qmult_le_compat_r; lra).
  revert H Hm.
  generalize (health_at base_wear_rate temp vibration load_pct t)
             (inject_Z (Z.of_nat t) * (base_wear_rate + 0.082))%Q.
  intros h p H Hm. lra.
Qed.

Lemma health_at_late base_wear_rate temp vibration load_pct t :
  (0.00015 <= base_wear_rate)%Q ->
  (0 < health_at base_wear_rate temp vibration load_pct t)%Q ->
  (inject_Z (Z.of_nat t) * 0.00015
   <= 1 - health_at base_wear_rate temp vibration load_pct t)%Q.
Proof.
  intros Hb Hpos.
  pose proof (health_at_linear base_wear_rate temp vibration load_pct t) as Hlin.
  assert (Hz : (0 <= inject_Z (Z.of_nat t))%Q)
    by (change 0%Q with (inject_Z 0); rewrite <- Zle_Qle; lia).
  assert (Hm : (inject_Z (Z.of_nat t) * 0.00015
                <= inject_Z (Z.of_nat t) * base_wear_rate)%Q)
    by (rewrite !(Qmult_comm (inject_Z (Z.of_nat t))); apply Qmult_le_compat_r; assumption).
  assert (Hb0 : (0 <= base_wear_rate)%Q) by lra.
  specialize (Hlin Hb0 Hpos). revert Hlin Hm.
  generalize (health_at base_wear_rate temp vibration load_pct t)
             (inject_Z (Z.of_nat t) * base_wear_rate)%Q
             (inject_Z (Z.of_nat t) * 0.00015)%Q.
  intros h p q Hlin Hm. lra.
Qed.

Lemma event_row (rows : list (Row * Z)) :
  (0 < failure_events rows)%nat -> exists t r, rows !! t = Some (r, 1%Z).
Proof.
  unfold failure_events. intros H.
  destruct (filter (fun r : Row * Z => r.2 = 1%Z) rows) as [|[r f] k] eqn:E;
    [cbn in H; lia|].
  assert (Hx : (r, f) ∈ filter (fun r : Row * Z => r.2 = 1%Z) rows) by (rewrite E; left).
  apply list_elem_of_filter in Hx as [Hf Hin]. cbn in Hf. subst f.
  apply list_elem_of_lookup in Hin as [t Ht]. exists t, r. exact Ht.
Qed.

(** X15.  Every machine has a row with failed = 1, and it lies between step 9
    and step 4667 of the machine, that is between 90 minutes and 46670
    minutes after the start, whatever the random draws are. *)
Theorem failure_step_window (draws : nat -> Draws) (m : nat) :
  wf_draws (draws m) -> (m < N_MACHINES)%nat ->
  (exists t r, machine_rows m (output draws) !! t = Some (r, 1%Z)) /\
  (forall t r, machine_rows m (output draws) !! t = Some (r, 1%Z) ->
     (9 <= Z.of_nat t <= 4667)%Z /\ (90 <= Z.of_nat (timestamp r) <= 46670)%Z).
Proof.
  intros Hwf Hm. rewrite (machine_rows_output draws m Hm). split.
  { apply event_row. rewrite (machine_block_events draws m Hwf). lia. }
  intros t r H.
  pose proof (machine_block_row draws m t r 1%Z H) as Hr.
  assert (Ht : (t < N_STEPS)%nat)
    by (apply lookup_lt_Some in H; rewrite length_machine_block in H; exact H).
  rewrite machine_block_eq in H.
  apply block_failed_iff in H as [_ [Hf _]]. destruct (Hf eq_refl) as [Hlow Hprev].
  subst r. rewrite timestamp_row by exact Ht.
  rewrite health_score_row in Hlow by exact Ht.
  destruct (wf_base_wear_rate _ Hwf) as [Hb1 Hb2].
  assert (Hlo : (9 <= Z.of_nat t)%Z).
  { destruct (Z_le_gt_dec (Z.of_nat t) 8) as [Hle|Hgt]; [|lia].
    assert (Hb : (0 <= draw_base_wear_rate (draws m) < 0.0003)%Q) by lra.
    pose proof (health_at_early _ (temp_arr (draws m)) (vibration_arr (draws m))
                  (load_pct_arr (draws m)) t Hb Hle) as He.
    revert Hlow He.
    generalize (health_at (draw_base_wear_rate (draws m)) (temp_arr (draws m))
                  (vibration_arr (draws m)) (load_pct_arr (draws m)) t).
    intros h Hlow He. lra. }
  assert (Hhi : (Z.of_nat t <= 4667)%Z).
  { destruct Hprev as [-> | (r' & f' & Hl & Hge)]; [lia|].
    apply block_lookup_inv in Hl. apply simulate_machine_lookup_inv in Hl as [Ht' ->].
    rewrite health_score_row in Hge by exact Ht'.
    destruct (Z_le_gt_dec 4667 (Z.of_nat (t - 1))) as [Hle|Hgt]; [|lia].
    exfalso.
    assert (Hpos : (0 < health_at (draw_base_wear_rate (draws m)) (temp_arr (draws m))
                         (vibration_arr (draws m)) (load_pct_arr (draws m)) (t - 1))%Q)
      by (revert Hge; generalize (health_at (draw_base_wear_rate (draws m))
                                    (temp_arr (draws m)) (vibration_arr (draws m))
                                    (load_pct_arr (draws m)) (t - 1)); intros h Hge; lra).
    pose proof (health_at_late _ _ _ _ _ Hb1 Hpos) as Hl.
    rewrite Zle_Qle in Hle. change (inject_Z 4667) with 4667%Q in Hle.
    revert Hge Hl Hle.
    generalize (health_at (draw_base_wear_rate (draws m)) (temp_arr (draws m))
                  (vibration_arr (draws m)) (load_pct_arr (draws m)) (t - 1))
               (inject_Z (Z.of_nat (t - 1))).
    intros h z Hge Hl Hle. lra. }
  split; lia.
Qed.

Lemma failure_step_window_witness :
  wf_draws quiet_draws /\ (0 < N_MACHINES)%nat /\
  exists t r, machine_rows 0 (output (fun _ => quiet_draws)) !! t = Some (r, 1%Z).
Proof.
  assert (Hm : (0 < N_MACHINES)%nat) by (unfold N_MACHINES; lia).
  split; [exact quiet_draws_wf|]. split; [exact Hm|].
  exact (proj1 (failure_step_window (fun _ => quiet_draws) 0%nat quiet_draws_wf Hm)).
Defined.

(** X16.  From step 6667 on (46 days and 7 hours after the start) the health
    score of every machine is 0: the last 1974 rows of each machine are
    those of a worn-out machine. *)
Theorem worn_out_rows (machine : nat) (d : Draws) (t : nat) (r : Row) :
  wf_draws d ->
  simulate_machine machine d !! t = Some r ->
  (6667 <= Z.of_nat t)%Z ->
  (health_score r == 0)%Q.
Proof.
  intros Hwf Hr Ht. apply simulate_machine_lookup_inv in Hr as [Hlt ->].
  rewrite health_score_row by exact Hlt.
  destruct (wf_base_wear_rate _ Hwf) as [Hb1 _].
  pose proof (health_at_nonneg (draw_base_wear_rate d) (temp_arr d) (vibration_arr d)
                (load_pct_arr d) t) as H0.
  pose proof (health_at_late (draw_base_wear_rate d) (temp_arr d) (vibration_arr d)
                (load_pct_arr d) t Hb1) as Hl.
  rewrite Zle_Qle in Ht. change (inject_Z 6667) with 6667%Q in Ht.
  revert H0 Hl Ht.
  generalize (health_at (draw_base_wear_rate d) (temp_arr d) (vibration_arr d)
                (load_pct_arr d) t) (inject_Z (Z.of_nat t)).
  intros h z H0 Hl Ht.
  destruct (Qlt_le_dec 0 h) as [Hpos|Hle]; [specialize (Hl Hpos); lra|].
  apply Qle_antisym; assumption.
Qed.

Lemma worn_out_rows_witness :
  wf_draws quiet_draws /\
  simulate_machine 0 quiet_draws !! (N_STEPS - 1)%nat
  = Some (row_at 0 quiet_draws (N_STEPS - 1)) /\
  (6667 <= Z.of_nat (N_STEPS - 1))%Z /\
  (health_score (row_at 0 quiet_draws (N_STEPS - 1)) == 0)%Q.
Proof.
  assert (Hr : simulate_machine 0 quiet_draws !! (N_STEPS - 1)%nat
               = Some (row_at 0 quiet_draws (N_STEPS - 1)))
    by (apply simulate_machine_lookup; pose proof one_lt_N_STEPS; lia).
  assert (Ht : (6667 <= Z.of_nat (N_STEPS - 1))%Z) by (rewrite steps_value; lia).
  split; [exact quiet_draws_wf|]. split; [exact Hr|]. split; [exact Ht|].
  exact (worn_out_rows 0 quiet_draws (N_STEPS - 1) _ quiet_draws_wf Hr Ht).
Defined.

(** ** The drift of temperature and vibration *)

Lemma inject_nat_nonneg n : (0 <= inject_Z (Z.of_nat n))%Q.
Proof. change 0%Q with (inject_Z 0). rewrite <- Zle_Qle. lia. Qed.

Lemma linspace_first start stop num :
  (0 < num)%nat -> (linspace start stop num !!! 0%nat == start)%Q.
Proof.
  intros H. rewrite lookup_total_linspace by exact H.
  change (inject_Z (Z.of_nat 0)) with 0%Q. ring.
Qed.

Lemma linspace_last start stop num :
  (1 < num)%nat -> (linspace start stop num !!! (num - 1)%nat == stop)%Q.
Proof.
  intros H. rewrite lookup_total_linspace by lia.
  assert (Hn : ~ (inject_Z (Z.of_nat (num - 1)) == 0)%Q).
  { change 0%Q with (inject_Z 0). rewrite inject_Z_injective. lia. }
  revert Hn. generalize (inject_Z (Z.of_nat (num - 1))). intros n Hn. field. exact Hn.
Qed.

Lemma linspace_mono start stop num i j :
  (start <= stop)%Q -> (i <= j < num)%nat ->
  (linspace start stop num !!! i <= linspace start stop num !!! j)%Q.
Proof.
  intros Hs [Hij Hj]. rewrite !lookup_total_linspace by lia.
  assert (Hd : (0 <= (stop - start) / inject_Z (Z.of_nat (num - 1)))%Q).
  { apply Qmult_le_0_compat; [lra|].
    apply Qinv_le_0_compat, inject_nat_nonneg. }
  assert (Hz : (inject_Z (Z.of_nat i) <= inject_Z (Z.of_nat j))%Q)
    by (rewrite <- Zle_Qle; lia).
  pose proof (Qmult_le_compat_r _ _ _ Hz Hd) as Hm.
  revert Hm.
  generalize (inject_Z (Z.of_nat i) * ((stop - start) / inject_Z (Z.of_nat (num - 1))))%Q
             (inject_Z (Z.of_nat j) * ((stop - start) / inject_Z (Z.of_nat (num - 1))))%Q.
  intros p q Hm. lra.
Qed.

Lemma linspace_range start stop num i :
  (start <= stop)%Q -> (i < num)%nat ->
  (start <= linspace start stop num !!! i <= stop)%Q.
Proof.
  intros Hs Hi.
  destruct (decide (num = 1%nat)) as [->|Hn].
  - assert (i = 0%nat) as -> by lia.
    pose proof (linspace_first start stop 1 Hi). lra.
  - pose proof (linspace_first start stop num ltac:(lia)) as H0.
    pose proof (linspace_last start stop num ltac:(lia)) as H1.
    pose proof (linspace_mono start stop num 0 i Hs ltac:(lia)) as Ha.
    pose proof (linspace_mono start stop num i (num - 1) Hs ltac:(lia)) as Hb.
    revert H0 H1 Ha Hb.
    generalize (linspace start stop num !!! 0%nat) (linspace start stop num !!! i)
               (linspace start stop num !!! (num - 1)%nat).
    intros a b c H0 H1 Ha Hb. lra.
Qed.

Lemma temp_c_row machine d t :
  wf_draws d -> (t < N_STEPS)%nat ->
  temp_c (row_at machine d t)
  = (draw_base_temp d + linspace 0 (draw_temp_drift_max d) N_STEPS !!! t
     + draw_temp_noise d !!! t)%Q.
Proof.
  intros Hwf Ht. unfold row_at. cbn [temp_c].
  apply (temp_arr_lookup _ _ (wf_temp_noise _ Hwf) Ht).
Qed.

Lemma vibration_ms2_row machine d t :
  wf_draws d -> (t < N_STEPS)%nat ->
  vibration_ms2 (row_at machine d t)
  = (draw_base_vibration d + linspace 0 (draw_vib_drift_max d) N_STEPS !!! t
     + draw_vib_noise d !!! t)%Q.
Proof.
  intros Hwf Ht. unfold row_at. cbn [vibration_ms2].
  apply (vibration_arr_lookup _ _ (wf_vib_noise _ Hwf) Ht).
Qed.

Lemma signal_bounds (base noise first last drift_max : Q) :
  (first == 0)%Q -> (last == drift_max)%Q ->
  (base + first + noise - noise == base)%Q /\
  (base + last + noise - noise == base + drift_max)%Q.
Proof. intros H1 H2. split; lra. Qed.

Lemma signal_mono (base a b noise_a noise_b : Q) :
  (a <= b)%Q -> (base + a + noise_a - noise_a <= base + b + noise_b - noise_b)%Q.
Proof. intros H. lra. Qed.

(** X11.  Apart from the noise, the temperature and the vibration of a machine
    never go down from one row to a later one: they start at the baseline
    and end at the baseline plus the machine's maximal drift. *)
Theorem drift_profile (machine : nat) (d : Draws) :
  wf_draws d ->
  (forall t, (t < N_STEPS)%nat ->
     simulate_machine machine d !! t = Some (row_at machine d t)) /\
  (temp_c (row_at machine d 0) - draw_temp_noise d !!! 0%nat == draw_base_temp d)%Q /\
  (temp_c (row_at machine d (N_STEPS - 1)) - draw_temp_noise d !!! (N_STEPS - 1)%nat
   == draw_base_temp d + draw_temp_drift_max d)%Q /\
  (vibration_ms2 (row_at machine d 0) - draw_vib_noise d !!! 0%nat
   == draw_base_vibration d)%Q /\
  (vibration_ms2 (row_at machine d (N_STEPS - 1)) - draw_vib_noise d !!! (N_STEPS - 1)%nat
   == draw_base_vibration d + draw_vib_drift_max d)%Q /\
  (forall i j, (i <= j < N_STEPS)%nat ->
     (temp_c (row_at machine d i) - draw_temp_noise d !!! i
      <= temp_c (row_at machine d j) - draw_temp_noise d !!! j)%Q /\
     (vibration_ms2 (row_at machine d i) - draw_vib_noise d !!! i
      <= vibration_ms2 (row_at machine d j) - draw_vib_noise d !!! j)%Q).
Proof.
  intros Hwf.
  pose proof one_lt_N_STEPS as HN.
  destruct (wf_temp_drift_max _ Hwf) as [Ht1 _].
  destruct (wf_vib_drift_max _ Hwf) as [Hv1 _].
  assert (H0 : (0 < N_STEPS)%nat) by lia.
  assert (H1 : (N_STEPS - 1 < N_STEPS)%nat) by lia.
  split; [intros t Ht; apply simulate_machine_lookup, Ht|].
  rewrite !(temp_c_row machine d _ Hwf H0), !(temp_c_row machine d _ Hwf H1),
    !(vibration_ms2_row machine d _ Hwf H0), !(vibration_ms2_row machine d _ Hwf H1).
  destruct (signal_bounds (draw_base_temp d) (draw_temp_noise d !!! 0%nat)
              _ _ _ (linspace_first 0 (draw_temp_drift_max d) N_STEPS H0)
              (linspace_last 0 (draw_temp_drift_max d) N_STEPS HN)) as [Ha _].
  destruct (signal_bounds (draw_base_temp d) (draw_temp_noise d !!! (N_STEPS - 1)%nat)
              _ _ _ (linspace_first 0 (draw_temp_drift_max d) N_STEPS H0)
              (linspace_last 0 (draw_temp_drift_max d) N_STEPS HN)) as [_ Hb].
  destruct (signal_bounds (draw_base_vibration d) (draw_vib_noise d !!! 0%nat)
              _ _ _ (linspace_first 0 (draw_vib_drift_max d) N_STEPS H0)
              (linspace_last 0 (draw_vib_drift_max d) N_STEPS HN)) as [Hc _].
  destruct (signal_bounds (draw_base_vibration d) (draw_vib_noise d !!! (N_STEPS - 1)%nat)
              _ _ _ (linspace_first 0 (draw_vib_drift_max d) N_STEPS H0)
              (linspace_last 0 (draw_vib_drift_max d) N_STEPS HN)) as [_ He].
  split; [exact Ha|]. split; [exact Hb|]. split; [exact Hc|]. split; [exact He|].
  intros i j Hij.
  rewrite (temp_c_row machine d i Hwf), (temp_c_row machine d j Hwf),
    (vibration_ms2_row machine d i Hwf), (vibration_ms2_row machine d j Hwf) by lia.
  split; apply signal_mono, linspace_mono; try exact Hij; lra.
Qed.

Lemma drift_profile_witness :
  wf_draws quiet_draws /\
  (temp_c (row_at 0 quiet_draws (N_STEPS - 1)) - draw_temp_noise quiet_draws !!! (N_STEPS - 1)%nat
   == draw_base_temp quiet_draws + draw_temp_drift_max quiet_draws)%Q.
Proof.
  split; [exact quiet_draws_wf|].
  exact (proj1 (proj2 (proj2 (drift_profile 0 quiet_draws quiet_draws_wf)))).
Defined.

(** ** Clipping *)

Lemma np_clip_inside a lo hi : (lo <= a <= hi)%Q -> np_clip a lo hi = a.
Proof.
  intros [H1 H2]. unfold np_clip, np_maximum, np_minimum.
  assert (E1 : ltb a lo = false) by (apply ltb_ge; exact H1).
  rewrite E1.
  assert (E2 : ltb hi a = false) by (apply ltb_ge; exact H2).
  rewrite E2. reflexivity.
Qed.

Lemma np_clip_below a lo hi : (a < lo)%Q -> (lo <= hi)%Q -> np_clip a lo hi = lo.
Proof.
  intros H1 H2. unfold np_clip, np_maximum, np_minimum.
  assert (E1 : ltb a lo = true) by (apply ltb_lt; exact H1).
  rewrite E1.
  assert (E2 : ltb hi lo = false) by (apply ltb_ge; exact H2).
  rewrite E2. reflexivity.
Qed.

Lemma np_clip_above a lo hi : (hi < a)%Q -> (lo <= hi)%Q -> np_clip a lo hi = hi.
Proof.
  intros H1 H2. unfold np_clip, np_maximum, np_minimum.
  destruct (ltb a lo) eqn:E1.
  - apply ltb_lt in E1. lra.
  - assert (E2 : ltb hi a = true) by (apply ltb_lt; exact H1).
    rewrite E2. reflexivity.
Qed.

(** X12.  Clipping changes only readings outside the range: a load of baseline
    plus noise within [10, 110] and an rpm within [800, 2200] are stored
    as they are, and a value outside is replaced by the bound it
    crossed. *)
Theorem clipping_only_outliers (machine : nat) (d : Draws) (t : nat) (r : Row) :
  wf_draws d ->
  simulate_machine machine d !! t = Some r ->
  let raw_load := (draw_base_load d + draw_load_noise d !!! t)%Q in
  let raw_rpm := (draw_base_rpm d + draw_rpm_noise d !!! t)%Q in
  ((10 <= raw_load <= 110)%Q -> load_pct r = raw_load) /\
  ((raw_load < 10)%Q -> load_pct r = 10%Q) /\
  ((110 < raw_load)%Q -> load_pct r = 110%Q) /\
  ((800 <= raw_rpm <= 2200)%Q -> rpm r = raw_rpm) /\
  ((raw_rpm < 800)%Q -> rpm r = 800%Q) /\
  ((2200 < raw_rpm)%Q -> rpm r = 2200%Q).
Proof.
  intros Hwf Hr raw_load raw_rpm.
  apply simulate_machine_lookup_inv in Hr as [Ht ->].
  unfold row_at. cbn [load_pct rpm].
  rewrite (load_pct_arr_lookup _ _ (wf_load_noise _ Hwf) Ht),
    (rpm_arr_lookup _ _ (wf_rpm_noise _ Hwf) Ht).
  fold raw_load raw_rpm.
  split; [apply np_clip_inside|].
  split; [intros H; apply np_clip_below; [exact H|lra]|].
  split; [intros H; apply np_clip_above; [exact H|lra]|].
  split; [apply np_clip_inside|].
  split; [intros H; apply np_clip_below; [exact H|lra]|].
  intros H; apply np_clip_above; [exact H|lra].
Qed.

Lemma clipping_only_outliers_witness :
  wf_draws quiet_draws /\
  simulate_machine 0 quiet_draws !! 0%nat = Some (row_at 0 quiet_draws 0) /\
  (10 <= draw_base_load quiet_draws + draw_load_noise quiet_draws !!! 0%nat <= 110)%Q /\
  load_pct (row_at 0 quiet_draws 0)
  = (draw_base_load quiet_draws + draw_load_noise quiet_draws !!! 0%nat)%Q.
Proof.
  assert (H : simulate_machine 0 quiet_draws !! 0%nat = Some (row_at 0 quiet_draws 0)).
  { apply simulate_machine_lookup. pose proof one_lt_N_STEPS. lia. }
  assert (Hb : (10 <= draw_base_load quiet_draws + draw_load_noise quiet_draws !!! 0%nat
                <= 110)%Q).
  { unfold quiet_draws. cbn [draw_base_load draw_load_noise].
    rewrite lookup_total_replicate_2 by (pose proof one_lt_N_STEPS; lia). lra. }
  split; [exact quiet_draws_wf|]. split; [exact H|]. split; [exact Hb|].
  exact (proj1 (clipping_only_outliers 0 quiet_draws 0 _ quiet_draws_wf H) Hb).
Defined.

(** ** Wear grows with the readings *)

Lemma gtb_lt x c : gtb x c = true <-> (c < x)%Q.
Proof. unfold gtb. apply ltb_lt. Qed.

Lemma gtb_le x c : gtb x c = false <-> (x <= c)%Q.
Proof. unfold gtb. apply ltb_ge. Qed.

Lemma accrued_nonneg steps x :
  Forall (fun s : Q * Q => (0 <= s.2)%Q) steps -> (0 <= accrued steps x)%Q.
Proof.
  induction 1 as [|s steps Hs _ IH]; unfold accrued in *; cbn [foldr]; [lra|].
  destruct (gtb x s.1); lra.
Qed.

Lemma accrued_mono steps x y :
  Forall (fun s : Q * Q => (0 <= s.2)%Q) steps -> (x <= y)%Q ->
  (accrued steps x <= accrued steps y)%Q.
Proof.
  intros Hs Hxy. induction Hs as [|s steps Hs Hrest IH]; [unfold accrued; cbn; lra|].
  pose proof (accrued_nonneg steps y Hrest) as Hy.
  unfold accrued in *. cbn [foldr].
  destruct (gtb x s.1) eqn:Ex; destruct (gtb y s.1) eqn:Ey; try lra.
  apply gtb_lt in Ex. apply gtb_le in Ey. lra.
Qed.

Lemma steps_nonneg :
  Forall (fun s : Q * Q => (0 <= s.2)%Q) temp_steps /\
  Forall (fun s : Q * Q => (0 <= s.2)%Q) vibration_steps /\
  Forall (fun s : Q * Q => (0 <= s.2)%Q) load_steps.
Proof.
  unfold temp_steps, vibration_steps, load_steps.
  repeat split; repeat constructor; cbn [snd]; lra.
Qed.

Lemma stress_of_mono t1 v1 l1 t2 v2 l2 :
  (t1 <= t2)%Q -> (v1 <= v2)%Q -> (l1 <= l2)%Q ->
  (stress_of t1 v1 l1 <= stress_of t2 v2 l2)%Q.
Proof.
  intros Ht Hv Hl.
  pose proof (stress_of_spec t1 v1 l1) as E1. pose proof (stress_of_spec t2 v2 l2) as E2.
  destruct steps_nonneg as (St & Sv & Sl).
  pose proof (accrued_mono temp_steps t1 t2 St Ht) as Ha.
  pose proof (accrued_mono vibration_steps v1 v2 Sv Hv) as Hb.
  pose proof (accrued_mono load_steps l1 l2 Sl Hl) as Hc.
  unfold stress_spec in E1, E2. lra.
Qed.

Lemma stress_of_zero_iff temp_t vibration_t load_pct_t :
  (stress_of temp_t vibration_t load_pct_t == 0)%Q
  <-> (temp_t <= 65 /\ vibration_t <= 1.8 /\ load_pct_t <= 80)%Q.
Proof.
  pose proof (stress_of_spec temp_t vibration_t load_pct_t) as E.
  destruct steps_nonneg as (St & Sv & Sl).
  pose proof (accrued_nonneg temp_steps temp_t St) as Ha.
  pose proof (accrued_nonneg vibration_steps vibration_t Sv) as Hb.
  pose proof (accrued_nonneg load_steps load_pct_t Sl) as Hc.
  pose proof (accrued_nonneg [(75, 0.010); (85, 0.015)]%Q temp_t) as Ha'.
  pose proof (accrued_nonneg [(2.2, 0.012); (2.6, 0.018)]%Q vibration_t) as Hb'.
  pose proof (accrued_nonneg [(90, 0.010)]%Q load_pct_t) as Hc'.
  unfold stress_spec in E. rewrite E. clear E.
  unfold accrued, temp_steps, vibration_steps, load_steps in *.
  cbn [foldr fst snd] in *.
  assert (Ha2 := Ha' ltac:(repeat constructor; cbn [snd]; lra)).
  assert (Hb2 := Hb' ltac:(repeat constructor; cbn [snd]; lra)).
  assert (Hc2 := Hc' ltac:(repeat constructor; cbn [snd]; lra)).
  clear Ha' Hb' Hc'.
  split.
  - intros H.
    destruct (gtb temp_t 65) eqn:E1; [lra|].
    destruct (gtb vibration_t 1.8) eqn:E2; [lra|].
    destruct (gtb load_pct_t 80) eqn:E3; [lra|].
    apply gtb_le in E1, E2, E3. auto.
  - intros (H1 & H2 & H3).
    assert (E1 : gtb temp_t 65 = false) by (apply gtb_le; lra).
    assert (E2 : gtb temp_t 75 = false) by (apply gtb_le; lra).
    assert (E3 : gtb temp_t 85 = false) by (apply gtb_le; lra).
    assert (E4 : gtb vibration_t 1.8 = false) by (apply gtb_le; lra).
    assert (E5 : gtb vibration_t 2.2 = false) by (apply gtb_le; lra).
    assert (E6 : gtb vibration_t 2.6 = false) by (apply gtb_le; lra).
    assert (E7 : gtb load_pct_t 80 = false) by (apply gtb_le; lra).
    assert (E8 : gtb load_pct_t 90 = false) by (apply gtb_le; lra).
    rewrite E1, E2, E3, E4, E5, E6, E7, E8. lra.
Qed.

Lemma health_at_conditions b1 b2 (T1 T2 V1 V2 L1 L2 : list Q) t :
  (b1 <= b2)%Q ->
  (forall s, (0 < s <= t)%nat ->
     (stress_of (T1 !!! s) (V1 !!! s) (L1 !!! s)
      <= stress_of (T2 !!! s) (V2 !!! s) (L2 !!! s))%Q) ->
  (health_at b2 T2 V2 L2 t <= health_at b1 T1 V1 L1 t)%Q.
Proof.
  intros Hb. induction t as [|t IH]; intros Hs; cbn [health_at]; [lra|].
  assert (IH' := IH ltac:(intros s Hs'; apply Hs; lia)).
  pose proof (Hs (S t) ltac:(lia)) as Hst.
  revert IH' Hst.
  generalize (health_at b1 T1 V1 L1 t) (health_at b2 T2 V2 L2 t)
             (stress_of (T1 !!! S t) (V1 !!! S t) (L1 !!! S t))
             (stress_of (T2 !!! S t) (V2 !!! S t) (L2 !!! S t)).
  intros h1 h2 s1 s2 IH' Hst.
  destruct (py_max_cases 0.0 (h1 - (b1 + s1))) as [[-> H1]|[-> H1]];
    destruct (py_max_cases 0.0 (h2 - (b2 + s2))) as [[-> H2]|[-> H2]]; lra.
Qed.

(** X13.  Wear grows with the readings.  The stress of a step never gets smaller
    when temperature, vibration and load get larger, and it is zero
    exactly when none of them exceeds its first threshold.  So a run of
    the health loop with a larger wear rate and readings that are at
    least as large at every step gives, at every step, a health score
    that is at most as large. *)
Theorem harsher_conditions_lower_health (n : nat) (b1 b2 : Q)
    (T1 T2 V1 V2 L1 L2 : list Q) :
  (b1 <= b2)%Q ->
  (forall s, (T1 !!! s <= T2 !!! s)%Q /\ (V1 !!! s <= V2 !!! s)%Q /\
             (L1 !!! s <= L2 !!! s)%Q) ->
  (forall t1 v1 l1 t2 v2 l2, (t1 <= t2)%Q -> (v1 <= v2)%Q -> (l1 <= l2)%Q ->
     (stress_of t1 v1 l1 <= stress_of t2 v2 l2)%Q) /\
  (forall t v l, (stress_of t v l == 0)%Q <-> (t <= 65 /\ v <= 1.8 /\ l <= 80)%Q) /\
  (forall t, (t < n)%nat ->
     (health_loop n b2 T2 V2 L2 !!! t <= health_loop n b1 T1 V1 L1 !!! t)%Q).
Proof.
  intros Hb Hr. split; [exact stress_of_mono|]. split; [exact stress_of_zero_iff|].
  intros t Ht. rewrite !health_loop_lookup by exact Ht.
  apply health_at_conditions; [exact Hb|].
  intros s _. destruct (Hr s) as (H1 & H2 & H3). apply stress_of_mono; assumption.
Qed.

Lemma harsher_conditions_lower_health_witness :
  (0.0002 <= 0.0003)%Q /\
  (health_loop 2 0.0003 [50; 90] [1; 3] [60; 100] !!! 1%nat
   <= health_loop 2 0.0002 [50; 60] [1; 1] [60; 60] !!! 1%nat)%Q.
Proof.
  assert (Hb : (0.0002 <= 0.0003)%Q) by lra.
  split; [exact Hb|].
  refine (proj2 (proj2 (harsher_conditions_lower_health 2 0.0002 0.0003
                          [50; 60]%Q [50; 90]%Q [1; 1]%Q [1; 3]%Q [60; 60]%Q [60; 100]%Q Hb _))
            1%nat _); [|lia].
  intros [|[|s]]; cbn; repeat split; lra.
Defined.

(** ** Sorting and the layout of the table *)

Lemma key_le_total r1 r2 : key_le r1 r2 = false -> key_le r2 r1 = true.
Proof.
  unfold key_le. intros H.
  apply orb_false_iff in H as [H1 H2].
  apply Nat.ltb_ge in H1.
  destruct (Nat.eqb_spec (machine_id r1) (machine_id r2)) as [Heq|Hne].
  - cbn [andb] in H2. apply Nat.leb_gt in H2.
    apply orb_true_iff. right. apply andb_true_iff. split.
    + apply Nat.eqb_eq. congruence.
    + apply Nat.leb_le. lia.
  - apply orb_true_iff. left. apply Nat.ltb_lt. lia.
Qed.

Lemma insert_row_perm r rows : insert_row r rows ≡ₚ r :: rows.
Proof.
  induction rows as [|r' rows IH]; cbn [insert_row]; [reflexivity|].
  destruct (key_le r r'); [reflexivity|].
  rewrite IH. apply Permutation_swap.
Qed.

Lemma insert_row_sorted r rows :
  Sorted key_rel rows -> Sorted key_rel (insert_row r rows).
Proof.
  induction 1 as [|r' rows Hs IH Hhd]; cbn [insert_row].
  - repeat constructor.
  - destruct (key_le r r') eqn:E.
    + constructor; [constructor; assumption|]. constructor. exact E.
    + constructor; [exact IH|].
      destruct rows as [|r'' rows]; cbn [insert_row].
      * constructor. apply key_le_total, E.
      * destruct (key_le r r''); constructor.
        -- apply key_le_total, E.
        -- inversion Hhd; assumption.
Qed.

Lemma sort_values_spec rows :
  Sorted key_rel (sort_values rows) /\ sort_values rows ≡ₚ rows.
Proof.
  unfold sort_values. induction rows as [|r rows [IH1 IH2]]; cbn [foldr].
  - split; [constructor|reflexivity].
  - split; [apply insert_row_sorted, IH1|].
    rewrite insert_row_perm, IH2. reflexivity.
Qed.

Lemma lookup_concat_seq {A} (F : nat -> list A) (c : nat) m t :
  (forall k, length (F k) = c) -> (t < c)%nat ->
  forall n a, (m < n)%nat ->
    concat (F <$> seq a n) !! (m * c + t)%nat = F (a + m)%nat !! t.
Proof.
  intros Hc Ht. induction m as [|m IH]; intros n a Hm;
    (destruct n as [|n]; [lia|]); cbn [seq fmap list_fmap concat].
  - rewrite lookup_app_l by (rewrite Hc; lia).
    rewrite Nat.add_0_r. reflexivity.
  - rewrite lookup_app_r by (rewrite Hc; lia).
    rewrite Hc. replace (S m * c + t - c)%nat with (m * c + t)%nat by lia.
    rewrite (IH n (S a)) by lia. f_equal. f_equal. lia.
Qed.

(** X17.  [sort_values] returns its rows in the order of machine id and
    timestamp.  The concatenated frames of the machines are in that order
    already, so sorting leaves the table as it is: it has 432050 rows, and
    row [m * N_STEPS + t] of the new index is row [t] of machine [m]. *)
Theorem table_layout (draws : nat -> Draws) :
  (forall rows, Sorted key_rel (sort_values rows) /\ sort_values rows ≡ₚ rows) /\
  data draws = concat (all_data draws) /\
  Z.of_nat (length (data draws)) = 432050%Z /\
  length (output draws) = length (data draws) /\
  (forall m t, (m < N_MACHINES)%nat -> (t < N_STEPS)%nat ->
     data draws !! (m * N_STEPS + t)%nat = Some (row_at m (draws m) t)).
Proof.
  split; [exact sort_values_spec|].
  split; [apply data_concat|].
  assert (Hlen : length (data draws) = (N_MACHINES * N_STEPS)%nat).
  { rewrite data_concat. unfold all_data.
    apply (length_concat_seq (fun m => simulate_machine m (draws m)) N_STEPS 0 N_MACHINES).
    intros m. apply length_simulate_machine. }
  split; [rewrite Hlen, Nat2Z.inj_mul, N_STEPS_value, N_MACHINES_value; reflexivity|].
  split.
  - rewrite output_blocks.
    rewrite (length_concat_seq (machine_block draws) N_STEPS 0 N_MACHINES)
      by (intros m; apply length_machine_block).
    symmetry. exact Hlen.
  - intros m t Hm Ht. rewrite data_concat. unfold all_data.
    rewrite (lookup_concat_seq (fun m => simulate_machine m (draws m)) N_STEPS m t
               (fun k => length_simulate_machine k (draws k)) Ht N_MACHINES 0 Hm).
    apply simulate_machine_lookup, Ht.
Qed.

Lemma table_layout_witness :
  (0 < N_MACHINES)%nat /\ (0 < N_STEPS)%nat /\
  data (fun _ => quiet_draws) !! (0 * N_STEPS + 0)%nat = Some (row_at 0 quiet_draws 0).
Proof.
  assert (Hm : (0 < N_MACHINES)%nat) by (unfold N_MACHINES; lia).
  assert (Ht : (0 < N_STEPS)%nat) by (pose proof one_lt_N_STEPS; lia).
  split; [exact Hm|]. split; [exact Ht|].
  exact (proj2 (proj2 (proj2 (proj2 (table_layout (fun _ => quiet_draws))))) 0%nat 0%nat Hm Ht).
Defined.

(** ** The failure pass on any table *)

Lemma latest_low_cons m r rows :
  latest_low m (r :: rows)
  = match latest_low m rows with
    | Some b => Some b
    | None => if decide (machine_id r = m)
              then Some (ltb (health_score r) HEALTH_THRESHOLD) else None
    end.
Proof.
  unfold latest_low. rewrite filter_cons.
  destruct (decide (machine_id r = m)) as [_|_]; [|destruct (last _); reflexivity].
  cbn [fmap list_fmap]. rewrite last_cons. reflexivity.
Qed.

Lemma groupby_shift_lookup (last : gmap nat bool) (rows : list Row) i r :
  rows !! i = Some r ->
  groupby_shift last (machine_id <$> rows) (low_health rows) !! i
  = Some (match latest_low (machine_id r) (take i rows) with
          | Some b => Some b
          | None => last !! machine_id r
          end).
Proof.
  revert last i. induction rows as [|r0 rows IH]; intros last i Hr; [discriminate|].
  destruct i as [|i]; cbn [fmap list_fmap low_health groupby_shift take].
  - cbn in Hr. injection Hr as ->. reflexivity.
  - cbn in Hr. change (list_fmap Row bool ?f rows) with (low_health rows).
    cbn [lookup list_lookup]. rewrite (IH _ i Hr). f_equal.
    rewrite latest_low_cons.
    destruct (latest_low (machine_id r) (take i rows)) as [b|]; [reflexivity|].
    destruct (decide (machine_id r0 = machine_id r)) as [E|E].
    + rewrite E. apply lookup_insert_eq.
    + apply lookup_insert_ne. exact E.
Qed.

Lemma length_low_health_prev rows : length (low_health_prev rows) = length rows.
Proof.
  unfold low_health_prev, fillna. rewrite length_fmap.
  generalize (∅ : gmap nat bool). unfold low_health.
  induction rows as [|r0 rows IH]; intros last; [reflexivity|].
  cbn [fmap list_fmap groupby_shift length]. f_equal. apply IH.
Qed.

(** X18.  The failure pass on any table, whatever the order of its rows: the
    flag that [groupby("machine_id").shift(1).fillna(False)] gives a row
    is the low-health flag of the latest earlier row of the same machine
    (False if the machine has no earlier row), and the row has failed = 1
    exactly when its own health score is below the threshold and that
    flag is False. *)
Theorem failure_pass_any_table (rows : list Row) (i : nat) (r : Row) :
  rows !! i = Some r ->
  let prev := default false (latest_low (machine_id r) (take i rows)) in
  low_health_prev rows !! i = Some prev /\
  failed rows !! i
  = Some (if ltb (health_score r) HEALTH_THRESHOLD && negb prev then 1%Z else 0%Z) /\
  length (failed rows) = length rows.
Proof.
  intros Hr prev.
  assert (Hp : low_health_prev rows !! i = Some prev).
  { unfold low_health_prev, fillna. rewrite list_lookup_fmap.
    rewrite (groupby_shift_lookup ∅ rows i r Hr). cbn [fmap option_fmap option_map].
    f_equal. unfold prev.
    destruct (latest_low (machine_id r) (take i rows)); [reflexivity|].
    rewrite lookup_empty. reflexivity. }
  assert (Hlen : length (low_health_prev rows) = length rows)
    by apply length_low_health_prev.
  split; [exact Hp|]. split.
  - unfold failed, loc_assign. rewrite !lookup_zip_with.
    rewrite (low_health_lookup rows i r Hr), Hp. cbn [mbind option_bind].
    rewrite lookup_replicate_2 by (apply lookup_lt_Some in Hr; exact Hr).
    cbn [mbind option_bind].
    destruct (ltb (health_score r) HEALTH_THRESHOLD), prev; reflexivity.
  - unfold failed, loc_assign. rewrite !length_zip_with, length_replicate, Hlen.
    rewrite length_low_health. lia.
Qed.

Lemma failure_pass_any_table_witness :
  interleaved_rows !! 3%nat = Some (reading 1 10 0.2) /\
  low_health_prev interleaved_rows !! 3%nat = Some false /\
  failed interleaved_rows !! 3%nat = Some 1%Z.
Proof.
  assert (H : interleaved_rows !! 3%nat = Some (reading 1 10 0.2)) by reflexivity.
  split; [exact H|].
  pose proof (failure_pass_any_table interleaved_rows 3 _ H) as (Hp & Hf & _).
  split; [exact Hp|exact Hf].
Defined.

(** ** The time index *)

Lemma date_range_lookup start stop freq i :
  (i <= (stop - start) / freq)%nat ->
  date_range start stop freq !! i = Some (start + i * freq)%nat.
Proof.
  intros Hi. unfold date_range.
  rewrite list_lookup_fmap, lookup_seq_lt by lia. reflexivity.
Qed.

(** X10.  [date_range] includes both ends: it starts at [start], goes on in
    steps of [freq] and ends at the last grid point that does not exceed
    [stop].  The time index of the script therefore has
    60 * 144 + 1 = 8641 entries, from the start date to the end date
    itself, ten minutes apart. *)
Theorem time_index_grid :
  (forall start stop freq, (0 < freq)%nat -> (start <= stop)%nat ->
     let grid := date_range start stop freq in
     length grid = S ((stop - start) / freq) /\
     grid !! 0%nat = Some start /\
     (forall i t, grid !! i = Some t -> t = (start + i * freq)%nat /\ (t <= stop)%nat) /\
     (exists t, grid !! ((stop - start) / freq)%nat = Some t /\ (stop < t + freq)%nat)) /\
  Z.of_nat N_STEPS = (Z.of_nat N_DAYS * 144 + 1)%Z /\
  Z.of_nat N_STEPS = 8641%Z /\
  time_index !! 0%nat = Some start_date /\
  (forall t, (t < N_STEPS)%nat -> time_index !! t = Some (start_date + 10 * t)%nat) /\
  (exists t, time_index !! (N_STEPS - 1)%nat = Some t /\ Z.of_nat t = Z.of_nat end_date).
Proof.
  split.
  { intros start stop freq Hf Hs grid.
    assert (Hlen : length grid = S ((stop - start) / freq)).
    { unfold grid, date_range. rewrite length_fmap, length_seq. lia. }
    split; [exact Hlen|].
    split; [unfold grid; rewrite date_range_lookup by lia; f_equal; lia|].
    pose proof (Nat.div_mod_eq (stop - start) freq) as Hdm.
    pose proof (Nat.mod_upper_bound (stop - start) freq ltac:(lia)) as Hmod.
    split.
    - intros i t Hi.
      assert (Hlt : (i < S ((stop - start) / freq))%nat)
        by (rewrite <- Hlen; apply lookup_lt_Some in Hi; exact Hi).
      unfold grid in Hi. rewrite date_range_lookup in Hi by lia.
      injection Hi as <-. split; [reflexivity|].
      assert ((i * freq <= (stop - start) / freq * freq)%nat)
        by (apply Nat.mul_le_mono_r; lia).
      nia.
    - exists (start + (stop - start) / freq * freq)%nat.
      split; [unfold grid; apply date_range_lookup; lia|]. nia. }
  pose proof N_STEPS_value as HN.
  split; [rewrite HN; reflexivity|]. split; [exact HN|].
  assert (H0 : (0 < N_STEPS)%nat) by (pose proof one_lt_N_STEPS; lia).
  split; [rewrite (time_index_lookup 0 H0); reflexivity|].
  split; [intros t Ht; rewrite (time_index_lookup t Ht); reflexivity|].
  exists (10 * (N_STEPS - 1))%nat.
  split; [apply time_index_lookup; lia|].
  rewrite Nat2Z.inj_mul, steps_value. reflexivity.
Qed.

Lemma time_index_grid_witness :
  (0 < 10)%nat /\ (0 <= 25)%nat /\
  length (date_range 0 25 10) = 3%nat /\
  exists t, date_range 0 25 10 !! 2%nat = Some t /\ (25 < t + 10)%nat.
Proof.
  assert (Hf : (0 < 10)%nat) by lia.
  assert (Hs : (0 <= 25)%nat) by lia.
  split; [exact Hf|]. split; [exact Hs|].
  pose proof (proj1 time_index_grid 0%nat 25%nat 10%nat Hf Hs) as (Hlen & _ & _ & Hlast).
  split; [exact Hlen|exact Hlast].
Defined.
